(** * Media capture pipeline: camera, screen and microphone managers

    A shallow embedding of the three capture classes (LiveVideoManager,
    LiveScreenManager, LiveAudioInputManager) and of the page script that
    wires them to the buttons, over an explicit model of the browser
    objects they drive: media streams and their tracks, the promises
    returned by getUserMedia / getDisplayMedia, the video and canvas
    elements, the animation-frame callback list and the audio graph.

    JavaScript runs one task at a time.  A method call is a state
    transformer; an [async] method runs up to its [await], leaves the
    suspended activations in the pending promise, and is resumed by the
    platform when the promise settles.  State changes made before an
    exception survive it, so the monad below keeps the state on [Throw].

    The rest of the page script (status display, microphone buttons,
    chat, device lists and select elements, the calls on the transport)
    is embedded as a page state around the capture state, and the
    CookieJar class over a document with its cookie assignments; the
    functions of the platform CookieJar calls are parameters. *)

From stdpp Require Import base option list strings numbers.

Set Default Proof Using "Type".
Local Open Scope N_scope.
Local Open Scope nat_scope.

(** ** Completions and the state monad of a task *)

Inductive JsError : Type :=
  | DOMException (name : string)
  | TypeError (message : string).

Inductive Completion (A : Type) : Type :=
  | Normal (a : A)
  | Throw (e : JsError).
Arguments Normal {A} a.
Arguments Throw {A} e.

Definition M (St A : Type) : Type := St → Completion A * St.

Definition ret {St A} (a : A) : M St A := λ s, (Normal a, s).

Definition bind {St A B} (m : M St A) (k : A → M St B) : M St B :=
  λ s, match m s with
       | (Normal a, s') => k a s'
       | (Throw e, s') => (Throw e, s')
       end.

Definition throw {St A} (e : JsError) : M St A := λ s, (Throw e, s).

(** [try { body } catch (error) { handler }] *)
Definition try_catch {St A} (body : M St A) (handler : JsError → M St A) : M St A :=
  λ s, match body s with
       | (Normal a, s') => (Normal a, s')
       | (Throw e, s') => handler e s'
       end.

Definition gets {St A} (f : St → A) : M St A := λ s, (Normal (f s), s).
Definition modify {St} (f : St → St) : M St unit := λ s, (Normal (), f s).

(** Run a computation on a component of the state. *)
Definition zoom {St Sub A} (get : St → Sub) (set : Sub → St → St)
    (m : M Sub A) : M St A :=
  λ s, let '(r, sub) := m (get s) in (r, set sub s).

Definition exec {St A} (m : M St A) (s : St) : St := snd (m s).
Definition result {St A} (m : M St A) (s : St) : Completion A := fst (m s).

Declare Scope js_scope.
Delimit Scope js_scope with js.
Notation "x <- m ;; k" := (bind m (λ x, k))
  (at level 100, m at next level, k at level 200, right associativity) : js_scope.
Notation "m ;; k" := (bind m (λ _, k))
  (at level 100, k at level 200, right associativity) : js_scope.
Local Open Scope js_scope.

(** ** Browser objects *)

Inductive TrackState : Type := Live | Ended.

Inductive SourceKind : Type := Camera | Screen | Microphone.

(** A MediaStream: what it captures and the readyState of each track. *)
Record MediaStream : Type := mkStream {
  kind : SourceKind;
  tracks : list TrackState
}.

(** Objects are addressed by their position in the store that holds them. *)
Definition StreamRef : Type := nat.
Definition Promise : Type := nat.
Definition Callback : Type := nat.
Definition Picture : Type := nat.

(** [{ deviceId: { exact: id } }] or [{ deviceId: undefined }] *)
Inductive TrackConstraints : Type :=
  | DeviceExact (id : string)
  | DeviceUndefined.

Inductive MediaRequest : Type :=
  | UserMediaVideo (c : TrackConstraints)
  | UserMediaAudio (c : TrackConstraints)
  | DisplayMediaVideo.

Definition request_kind (r : MediaRequest) : SourceKind :=
  match r with
  | UserMediaVideo _ => Camera
  | UserMediaAudio _ => Microphone
  | DisplayMediaVideo => Screen
  end.

(** Suspended activations of the async methods, innermost first. *)
Inductive AsyncFrame : Type :=
  | InStartWebcam
  | InUpdateWebcamDevice
  | InStartCapture
  | InConnectMicrophone
  | InUpdateMicrophoneDevice.

Inductive PromiseState : Type :=
  | Awaiting (r : MediaRequest) (stack : list AsyncFrame)
  | Settled.

(** How the platform settles an acquisition: a stream with [n] live
    tracks, or a rejection. *)
Inductive Outcome : Type :=
  | Granted (n : nat)
  | Denied (e : JsError).

Record VideoElement : Type := mkVideo {
  srcObject : option StreamRef;
  videoWidth : N;
  videoHeight : N;
  picture : Picture
}.

Record CanvasElement : Type := mkCanvas {
  width : N;
  height : N;
  bitmap : option Picture
}.

(** The value of [canvas.toDataURL(type)]. *)
Inductive DataURL : Type :=
  | EmptyData
  | ImageData (type : string) (w h : N) (pixels : option Picture).

(** Float32 samples, by bit pattern. *)
Definition Sample : Type := N.
(** An AudioBuffer: one sample list per channel. *)
Definition AudioBuffer : Type := list (list Sample).

(** The closures handed to requestAnimationFrame: [captureFrame] of the
    camera manager or of the screen manager. *)
Inductive Loop : Type := CameraLoop | ScreenLoop.

(** One [processAudioStream] graph: source -> processor -> destination. *)
Record AudioGraph : Type := mkGraph {
  source : option StreamRef;
  bufferSize : nat;
  numberOfInputChannels : nat;
  numberOfOutputChannels : nat;
  source_to_processor : bool;
  processor_to_destination : bool;
  onaudioprocess : bool
}.

(** What a task does to the world outside the page, in order. *)
Inductive Effect : Type :=
  | Requested (p : Promise) (r : MediaRequest)
  | TrackStopped (s : StreamRef) (i : nat)
  | Played (s : option StreamRef)
  | Drawn (p : Picture) (w h : N)
  | Encoded (d : DataURL)
  | FrameDelivered (cb : Callback) (d : DataURL)
  | ChunkDelivered (cb : Callback) (samples : list Sample)
  | ConsoleError (message : string) (e : JsError).

Record Browser : Type := mkBrowser {
  streams : list MediaStream;
  promises : list PromiseState;
  video : VideoElement;
  canvas : CanvasElement;
  frameRequests : list Loop;
  audioGraphs : list AudioGraph;
  log : list Effect
}.

#[global] Instance TrackState_eq_dec : EqDecision TrackState.
Proof. solve_decision. Defined.
#[global] Instance SourceKind_eq_dec : EqDecision SourceKind.
Proof. solve_decision. Defined.
#[global] Instance Loop_eq_dec : EqDecision Loop.
Proof. solve_decision. Defined.

Definition set_streams (f : list MediaStream → list MediaStream) (b : Browser) : Browser :=
  mkBrowser (f (streams b)) (promises b) (video b) (canvas b)
            (frameRequests b) (audioGraphs b) (log b).
Definition set_promises (f : list PromiseState → list PromiseState) (b : Browser) : Browser :=
  mkBrowser (streams b) (f (promises b)) (video b) (canvas b)
            (frameRequests b) (audioGraphs b) (log b).
Definition set_video (f : VideoElement → VideoElement) (b : Browser) : Browser :=
  mkBrowser (streams b) (promises b) (f (video b)) (canvas b)
            (frameRequests b) (audioGraphs b) (log b).
Definition set_canvas (f : CanvasElement → CanvasElement) (b : Browser) : Browser :=
  mkBrowser (streams b) (promises b) (video b) (f (canvas b))
            (frameRequests b) (audioGraphs b) (log b).
Definition set_frameRequests (f : list Loop → list Loop) (b : Browser) : Browser :=
  mkBrowser (streams b) (promises b) (video b) (canvas b)
            (f (frameRequests b)) (audioGraphs b) (log b).
Definition set_audioGraphs (f : list AudioGraph → list AudioGraph) (b : Browser) : Browser :=
  mkBrowser (streams b) (promises b) (video b) (canvas b)
            (frameRequests b) (f (audioGraphs b)) (log b).
Definition emit (e : Effect) (b : Browser) : Browser :=
  mkBrowser (streams b) (promises b) (video b) (canvas b)
            (frameRequests b) (audioGraphs b) (log b ++ [e]).
Definition emits (es : list Effect) (b : Browser) : Browser :=
  mkBrowser (streams b) (promises b) (video b) (canvas b)
            (frameRequests b) (audioGraphs b) (log b ++ es).

(** *** Platform operations on the browser state *)

(** [stream.getTracks()]: the tracks of the stream a handle refers to. *)
Definition getTracks (s : StreamRef) (b : Browser) : list TrackState :=
  match streams b !! s with
  | Some ms => tracks ms
  | None => []
  end.

(** The stream after [track.stop()] on each of its tracks. *)
Definition end_tracks (ms : MediaStream) : MediaStream :=
  mkStream (kind ms) ((λ _, Ended) <$> tracks ms).

(** [stream.getTracks().forEach(track => track.stop())] *)
Definition stop_all_tracks (s : StreamRef) (b : Browser) : Browser :=
  emits (imap (λ i _, TrackStopped s i) (getTracks s b))
    (set_streams (alter end_tracks s) b).

(** [videoElement.srcObject = v] *)
Definition assign_srcObject (v : option StreamRef) (b : Browser) : Browser :=
  set_video (λ e, mkVideo v (videoWidth e) (videoHeight e) (picture e)) b.

(** [videoElement.play()] *)
Definition play (b : Browser) : Browser :=
  emit (Played (srcObject (video b))) b.

(** [canvasElement.width = w]: assigning a dimension clears the bitmap. *)
Definition assign_canvas_width (w : N) (b : Browser) : Browser :=
  set_canvas (λ c, mkCanvas w (height c) None) b.
Definition assign_canvas_height (h : N) (b : Browser) : Browser :=
  set_canvas (λ c, mkCanvas (width c) h None) b.

(** [context.drawImage(videoElement, 0, 0, w, h)] *)
Definition drawImage (w h : N) (b : Browser) : Browser :=
  emit (Drawn (picture (video b)) w h)
    (set_canvas (λ c, mkCanvas (width c) (height c) (Some (picture (video b)))) b).

(** [canvasElement.toDataURL(type)] *)
Definition toDataURL (type : string) (b : Browser) : DataURL :=
  let c := canvas b in
  if (width c =? 0)%N || (height c =? 0)%N then EmptyData
  else ImageData type (width c) (height c) (bitmap c).

(** [requestAnimationFrame(callback)] *)
Definition requestAnimationFrame (l : Loop) (b : Browser) : Browser :=
  set_frameRequests (λ q, q ++ [l]) b.

(** [navigator.mediaDevices.getUserMedia / getDisplayMedia]: a new
    pending promise, awaited by the calling activation. *)
Definition request_media (r : MediaRequest) (caller : AsyncFrame)
    (b : Browser) : Promise * Browser :=
  let p := length (promises b) in
  (p, emit (Requested p r) (set_promises (λ ps, ps ++ [Awaiting r [caller]]) b)).

(** [await promise] in an async method [caller]: the calling activation is
    suspended on top of the ones already waiting for [p]. *)
Definition await_in (caller : AsyncFrame) (p : Promise) (b : Browser) : Browser :=
  set_promises (alter (λ st, match st with
                             | Awaiting r stack => Awaiting r (stack ++ [caller])
                             | Settled => Settled
                             end) p) b.

(** The stream object the platform hands over when it grants a request. *)
Definition new_stream (k : SourceKind) (n : nat) (b : Browser) : StreamRef * Browser :=
  (length (streams b), set_streams (λ ss, ss ++ [mkStream k (replicate n Live)]) b).

(** Truthiness of the [deviceId] argument: [null] and the empty string
    are falsy. *)
Definition device_constraint (deviceId : option string) : TrackConstraints :=
  match deviceId with
  | Some id => if String.eqb id "" then DeviceUndefined else DeviceExact id
  | None => DeviceUndefined
  end.

(** ** Methods as tasks over [this] and the browser *)

Section Object.
Context {T : Type}.

Definition on_browser (f : Browser → Browser) : M (T * Browser) unit :=
  modify (λ s, (s.1, f s.2)).
Definition browser_call {A} (f : Browser → A * Browser) : M (T * Browser) A :=
  λ s, let '(a, b) := f s.2 in (Normal a, (s.1, b)).
Definition read_browser {A} (f : Browser → A) : M (T * Browser) A :=
  gets (λ s, f s.2).
Definition this_get {A} (f : T → A) : M (T * Browser) A :=
  gets (λ s, f s.1).
Definition this_set (f : T → T) : M (T * Browser) unit :=
  modify (λ s, (f s.1, s.2)).

(** The value of [await promise] once the promise has settled. *)
Definition awaited {A} (c : Completion A) : M (T * Browser) A :=
  λ s, (c, s).

(** [canvasElement.toDataURL(type)], recorded as an encoding. *)
Definition encode (type : string) : M (T * Browser) DataURL :=
  browser_call (λ b, let d := toDataURL type b in (d, emit (Encoded d) b)).

(** Calling a registered receiver.  The receivers live outside the
    pipeline (the transport); a call is recorded and returns normally. *)
Definition call_onNewFrame (cb : Callback) (imageData : DataURL) : M (T * Browser) unit :=
  on_browser (emit (FrameDelivered cb imageData)).
Definition call_onNewAudioRecordingChunk (cb : Callback) (audioData : list Sample)
    : M (T * Browser) unit :=
  on_browser (emit (ChunkDelivered cb audioData)).

Definition console_error (message : string) (e : JsError) : M (T * Browser) unit :=
  on_browser (emit (ConsoleError message e)).
End Object.

(** Values that flow through the awaits: a stream, or [undefined]. *)
Definition JsValue : Type := option StreamRef.

(** ** class LiveVideoManager *)

Module LiveVideoManager.

Record t : Type := mk {
  stream : JsValue;
  onNewFrame : option Callback
}.

(** Both elements of the page are passed in; they are the [video] and
    [canvas] objects of the browser state, shared with the screen
    manager. *)
Definition constructor : t := mk None None.

Definition set_stream (v : JsValue) (o : t) : t := mk v (onNewFrame o).
Definition set_onNewFrame (cb : option Callback) (o : t) : t := mk (stream o) cb.

(** The closure [captureFrame] of [captureFrames]. *)
Definition captureFrame : M (t * Browser) unit :=
  vw <- read_browser (λ b, videoWidth (video b)) ;;
  vh <- read_browser (λ b, videoHeight (video b)) ;;
  (if (0 <? vw)%N && (0 <? vh)%N then
     on_browser (assign_canvas_width vw) ;;
     on_browser (assign_canvas_height vh) ;;
     cw <- read_browser (λ b, width (canvas b)) ;;
     ch <- read_browser (λ b, height (canvas b)) ;;
     on_browser (drawImage cw ch) ;;
     cb <- this_get onNewFrame ;;
     match cb with
     | Some cb =>
         imageData <- encode "image/jpeg" ;;
         call_onNewFrame cb imageData
     | None => ret ()
     end
   else ret ()) ;;
  on_browser (requestAnimationFrame CameraLoop).

Definition captureFrames : M (t * Browser) unit := captureFrame.

Definition stopWebcam : M (t * Browser) unit :=
  s <- this_get stream ;;
  match s with
  | Some s =>
      on_browser (stop_all_tracks s) ;;
      on_browser (assign_srcObject None) ;;
      this_set (set_stream None)
  | None => ret ()
  end.

(** [startWebcam] up to its [await]. *)
Definition startWebcam (deviceId : option string) : M (t * Browser) Promise :=
  let constraints := UserMediaVideo (device_constraint deviceId) in
  browser_call (request_media constraints InStartWebcam).

(** [startWebcam] from its [await] on. *)
Definition startWebcam_resume (settled : Completion JsValue) : M (t * Browser) unit :=
  try_catch
    (s <- awaited settled ;;
     this_set (set_stream s) ;;
     s <- this_get stream ;;
     on_browser (assign_srcObject s) ;;
     on_browser play ;;
     captureFrames)
    (λ error,
       console_error "Error starting webcam:" error ;;
       throw error).

(** [updateWebcamDevice] up to its [await]; its promise is settled by
    the settlement of the acquisition it waits for. *)
Definition updateWebcamDevice (deviceId : string) : M (t * Browser) Promise :=
  stopWebcam ;;
  p <- startWebcam (Some deviceId) ;;
  on_browser (await_in InUpdateWebcamDevice p) ;;
  ret p.

Definition updateWebcamDevice_resume (settled : Completion unit) : M (t * Browser) unit :=
  awaited settled.

End LiveVideoManager.

(** ** class LiveScreenManager *)

Module LiveScreenManager.

Record t : Type := mk {
  stream : JsValue;
  onNewFrame : option Callback
}.

Definition constructor : t := mk None None.

Definition set_stream (v : JsValue) (o : t) : t := mk v (onNewFrame o).
Definition set_onNewFrame (cb : option Callback) (o : t) : t := mk (stream o) cb.

Definition captureFrame : M (t * Browser) unit :=
  vw <- read_browser (λ b, videoWidth (video b)) ;;
  vh <- read_browser (λ b, videoHeight (video b)) ;;
  (if (0 <? vw)%N && (0 <? vh)%N then
     on_browser (assign_canvas_width vw) ;;
     on_browser (assign_canvas_height vh) ;;
     cw <- read_browser (λ b, width (canvas b)) ;;
     ch <- read_browser (λ b, height (canvas b)) ;;
     on_browser (drawImage cw ch) ;;
     cb <- this_get onNewFrame ;;
     match cb with
     | Some cb =>
         imageData <- encode "image/jpeg" ;;
         call_onNewFrame cb imageData
     | None => ret ()
     end
   else ret ()) ;;
  on_browser (requestAnimationFrame ScreenLoop).

Definition captureFrames : M (t * Browser) unit := captureFrame.

Definition stopCapture : M (t * Browser) unit :=
  s <- this_get stream ;;
  match s with
  | Some s =>
      on_browser (stop_all_tracks s) ;;
      on_browser (assign_srcObject None) ;;
      this_set (set_stream None)
  | None => ret ()
  end.

Definition startCapture : M (t * Browser) Promise :=
  browser_call (request_media DisplayMediaVideo InStartCapture).

Definition startCapture_resume (settled : Completion JsValue) : M (t * Browser) unit :=
  try_catch
    (s <- awaited settled ;;
     this_set (set_stream s) ;;
     s <- this_get stream ;;
     on_browser (assign_srcObject s) ;;
     on_browser play ;;
     captureFrames)
    (λ error,
       console_error "Error starting screen capture:" error ;;
       throw error).

End LiveScreenManager.

(** ** class LiveAudioInputManager *)

Module LiveAudioInputManager.

Record t : Type := mk {
  stream : JsValue;
  onNewAudioRecordingChunk : option Callback
}.

Definition constructor : t := mk None None.

Definition set_stream (v : JsValue) (o : t) : t := mk v (onNewAudioRecordingChunk o).
Definition set_onNewAudioRecordingChunk (cb : option Callback) (o : t) : t :=
  mk (stream o) cb.

(** [event.inputBuffer.getChannelData(channel)] *)
Definition getChannelData (inputBuffer : AudioBuffer) (channel : nat)
    : M (t * Browser) (list Sample) :=
  match inputBuffer !! channel with
  | Some data => ret data
  | None => throw (DOMException "IndexSizeError")
  end.

(** The handler assigned to [processor.onaudioprocess]. *)
Definition onaudioprocess_handler (inputBuffer : AudioBuffer) : M (t * Browser) unit :=
  cb <- this_get onNewAudioRecordingChunk ;;
  match cb with
  | Some cb =>
      audioData <- getChannelData inputBuffer 0 ;;
      call_onNewAudioRecordingChunk cb audioData
  | None => ret ()
  end.

Definition processAudioStream : M (t * Browser) unit :=
  s <- this_get stream ;;
  (* new AudioContext(); createMediaStreamSource(this.stream);
     createScriptProcessor(4096, 1, 1) *)
  let processor := mkGraph s 4096 1 1 false false false in
  (* source.connect(processor); processor.connect(audioContext.destination) *)
  let processor :=
    mkGraph (source processor) (bufferSize processor)
            (numberOfInputChannels processor) (numberOfOutputChannels processor)
            true true false in
  (* processor.onaudioprocess = (event) => { ... } *)
  let processor :=
    mkGraph (source processor) (bufferSize processor)
            (numberOfInputChannels processor) (numberOfOutputChannels processor)
            (source_to_processor processor) (processor_to_destination processor) true in
  on_browser (set_audioGraphs (λ gs, gs ++ [processor])).

Definition disconnectMicrophone : M (t * Browser) unit :=
  s <- this_get stream ;;
  match s with
  | Some s =>
      on_browser (stop_all_tracks s) ;;
      this_set (set_stream None)
  | None => ret ()
  end.

Definition connectMicrophone (deviceId : option string) : M (t * Browser) Promise :=
  let constraints := UserMediaAudio (device_constraint deviceId) in
  browser_call (request_media constraints InConnectMicrophone).

Definition connectMicrophone_resume (settled : Completion JsValue) : M (t * Browser) unit :=
  try_catch
    (s <- awaited settled ;;
     this_set (set_stream s) ;;
     processAudioStream)
    (λ error,
       console_error "Error connecting microphone:" error ;;
       throw error).

Definition updateMicrophoneDevice (deviceId : string) : M (t * Browser) Promise :=
  disconnectMicrophone ;;
  p <- connectMicrophone (Some deviceId) ;;
  on_browser (await_in InUpdateMicrophoneDevice p) ;;
  ret p.

Definition updateMicrophoneDevice_resume (settled : Completion unit) : M (t * Browser) unit :=
  awaited settled.

End LiveAudioInputManager.

(** ** The page: three global managers over one browser *)

Record World : Type := mkWorld {
  browser : Browser;
  liveVideoManager : LiveVideoManager.t;
  liveScreenManager : LiveScreenManager.t;
  liveAudioInputManager : LiveAudioInputManager.t
}.

(** A method call on one of the globals. *)
Definition on_video {A} (m : M (LiveVideoManager.t * Browser) A) : M World A :=
  zoom (λ w, (liveVideoManager w, browser w))
       (λ s w, mkWorld s.2 s.1 (liveScreenManager w) (liveAudioInputManager w)) m.
Definition on_screen {A} (m : M (LiveScreenManager.t * Browser) A) : M World A :=
  zoom (λ w, (liveScreenManager w, browser w))
       (λ s w, mkWorld s.2 (liveVideoManager w) s.1 (liveAudioInputManager w)) m.
Definition on_audio {A} (m : M (LiveAudioInputManager.t * Browser) A) : M World A :=
  zoom (λ w, (liveAudioInputManager w, browser w))
       (λ s w, mkWorld s.2 (liveVideoManager w) (liveScreenManager w) s.1) m.
Definition on_page (f : Browser → Browser) : M World unit :=
  modify (λ w, mkWorld (f (browser w)) (liveVideoManager w) (liveScreenManager w)
                       (liveAudioInputManager w)).

Definition empty_browser : Browser :=
  mkBrowser [] [] (mkVideo None 0 0 0) (mkCanvas 300 150 None) [] [] [].

(** The managers as constructed, before any callback is assigned. *)
Definition constructed : World :=
  mkWorld empty_browser LiveVideoManager.constructor LiveScreenManager.constructor
          LiveAudioInputManager.constructor.

(** The receivers the page script assigns: each forwards to the
    transport. *)
Definition sendImageFromCamera : Callback := 0.
Definition sendImageFromScreen : Callback := 1.
Definition sendAudio : Callback := 2.

(** The page once its top-level script has run. *)
Definition page_loaded : World :=
  mkWorld empty_browser
          (LiveVideoManager.set_onNewFrame (Some sendImageFromCamera) LiveVideoManager.constructor)
          (LiveScreenManager.set_onNewFrame (Some sendImageFromScreen) LiveScreenManager.constructor)
          (LiveAudioInputManager.set_onNewAudioRecordingChunk (Some sendAudio)
             LiveAudioInputManager.constructor).

(** Calls that are not awaited: the returned promise is dropped. *)
Definition ignore {St A} (m : M St A) : M St unit := _ <- m ;; ret ().

Definition startCameraCapture : M World unit :=
  on_screen LiveScreenManager.stopCapture ;;
  ignore (on_video (LiveVideoManager.startWebcam None)).

Definition startScreenCapture : M World unit :=
  on_video LiveVideoManager.stopWebcam ;;
  ignore (on_screen LiveScreenManager.startCapture).

Definition cameraBtnClick : M World unit := startCameraCapture.
Definition screenShareBtnClick : M World unit := startScreenCapture.

Definition newCameraSelected (value : string) : M World unit :=
  ignore (on_video (LiveVideoManager.updateWebcamDevice value)).
Definition newMicSelected (value : string) : M World unit :=
  ignore (on_audio (LiveAudioInputManager.updateMicrophoneDevice value)).

Definition startAudioInput : M World unit :=
  ignore (on_audio (LiveAudioInputManager.connectMicrophone None)).
Definition stopAudioInput : M World unit :=
  on_audio LiveAudioInputManager.disconnectMicrophone.

Definition micBtnClick : M World unit := stopAudioInput.
Definition micOffBtnClick : M World unit := startAudioInput.

(** The handlers below also drive the status display and the transport,
    which are not part of the state modelled here. *)
Definition onConnectionStarted : M World unit := startAudioInput.
Definition disconnectBtnClick : M World unit := stopAudioInput.

(** ** The platform side: settling promises, frames, audio events *)

(** Resuming one suspended activation with the completion of what it
    awaited; the result is the completion of its own promise. *)
Definition as_unit (c : Completion JsValue) : Completion unit :=
  match c with Normal _ => Normal () | Throw e => Throw e end.

Definition resume (f : AsyncFrame) (settled : Completion JsValue) : M World JsValue :=
  match f with
  | InStartWebcam =>
      on_video (LiveVideoManager.startWebcam_resume settled) ;; ret None
  | InUpdateWebcamDevice =>
      on_video (LiveVideoManager.updateWebcamDevice_resume (as_unit settled)) ;; ret None
  | InStartCapture =>
      on_screen (LiveScreenManager.startCapture_resume settled) ;; ret None
  | InConnectMicrophone =>
      on_audio (LiveAudioInputManager.connectMicrophone_resume settled) ;; ret None
  | InUpdateMicrophoneDevice =>
      on_audio (LiveAudioInputManager.updateMicrophoneDevice_resume (as_unit settled)) ;; ret None
  end.

Fixpoint resume_stack (stack : list AsyncFrame) (settled : Completion JsValue)
    : M World JsValue :=
  match stack with
  | [] => λ w, (settled, w)
  | f :: outer => λ w, let '(c, w') := resume f settled w in resume_stack outer c w'
  end.

(** The platform settles promise [p].  The completion returned is that of
    the outermost async call waiting on it: [Throw e] is a rejection seen
    by the caller.  Settling a promise twice does nothing. *)
Definition settle (p : Promise) (o : Outcome) : M World JsValue :=
  λ w,
    match promises (browser w) !! p with
    | Some (Awaiting r stack) =>
        let b := set_promises (<[p := Settled]>) (browser w) in
        let '(c, b) :=
          match o with
          | Granted n => let '(s, b) := new_stream (request_kind r) n b in (Normal (Some s), b)
          | Denied e => (Throw e, b)
          end in
        resume_stack stack c
          (mkWorld b (liveVideoManager w) (liveScreenManager w) (liveAudioInputManager w))
    | _ => (Normal None, w)
    end.

Definition run_loop (l : Loop) : M World unit :=
  match l with
  | CameraLoop => on_video LiveVideoManager.captureFrame
  | ScreenLoop => on_screen LiveScreenManager.captureFrame
  end.

(** Each callback runs to completion; its completion is reported and the
    next one runs whatever it was. *)
Fixpoint run_callbacks (q : list Loop) (w : World) : list (Completion unit) * World :=
  match q with
  | [] => ([], w)
  | l :: q =>
      let '(c, w) := run_loop l w in
      let '(cs, w) := run_callbacks q w in
      (c :: cs, w)
  end.

(** One display refresh: the callbacks registered so far run once, in
    registration order; what they register waits for the next refresh. *)
Definition animation_frame (w : World) : list (Completion unit) * World :=
  let q := frameRequests (browser w) in
  run_callbacks q (exec (on_page (set_frameRequests (λ _, []))) w).

(** The video element reports a new intrinsic size and picture. *)
Definition video_reports (vw vh : N) (pic : Picture) : M World unit :=
  on_page (set_video (λ e, mkVideo (srcObject e) vw vh pic)).

(** The processor of graph [g] has filled a buffer. *)
Definition audio_process (g : nat) (inputBuffer : AudioBuffer) : M World unit :=
  λ w,
    match audioGraphs (browser w) !! g with
    | Some graph =>
        if onaudioprocess graph
        then on_audio (LiveAudioInputManager.onaudioprocess_handler inputBuffer) w
        else (Normal (), w)
    | None => (Normal (), w)
    end.

(** ** Inputs and the step function *)

Inductive Input : Type :=
  (* methods of the capture classes *)
  | StartWebcam (deviceId : option string)
  | StopWebcam
  | UpdateWebcamDevice (deviceId : string)
  | StartCapture
  | StopCapture
  | ConnectMicrophone (deviceId : option string)
  | DisconnectMicrophone
  | UpdateMicrophoneDevice (deviceId : string)
  | AssignVideoOnNewFrame (cb : option Callback)
  | AssignScreenOnNewFrame (cb : option Callback)
  | AssignOnNewAudioRecordingChunk (cb : option Callback)
  (* handlers of the page *)
  | CameraBtnClick
  | ScreenShareBtnClick
  | NewCameraSelected (value : string)
  | NewMicSelected (value : string)
  | MicBtnClick
  | MicOffBtnClick
  | ConnectionStarted
  | DisconnectBtnClick
  (* the platform *)
  | PromiseSettles (p : Promise) (o : Outcome)
  | AnimationFrame
  | VideoReports (vw vh : N) (pic : Picture)
  | AudioProcess (g : nat) (inputBuffer : AudioBuffer).

Definition step (i : Input) (w : World) : World :=
  match i with
  | StartWebcam d => exec (on_video (LiveVideoManager.startWebcam d)) w
  | StopWebcam => exec (on_video LiveVideoManager.stopWebcam) w
  | UpdateWebcamDevice d => exec (on_video (LiveVideoManager.updateWebcamDevice d)) w
  | StartCapture => exec (on_screen LiveScreenManager.startCapture) w
  | StopCapture => exec (on_screen LiveScreenManager.stopCapture) w
  | ConnectMicrophone d => exec (on_audio (LiveAudioInputManager.connectMicrophone d)) w
  | DisconnectMicrophone => exec (on_audio LiveAudioInputManager.disconnectMicrophone) w
  | UpdateMicrophoneDevice d =>
      exec (on_audio (LiveAudioInputManager.updateMicrophoneDevice d)) w
  | AssignVideoOnNewFrame cb =>
      exec (on_video (this_set (LiveVideoManager.set_onNewFrame cb))) w
  | AssignScreenOnNewFrame cb =>
      exec (on_screen (this_set (LiveScreenManager.set_onNewFrame cb))) w
  | AssignOnNewAudioRecordingChunk cb =>
      exec (on_audio (this_set (LiveAudioInputManager.set_onNewAudioRecordingChunk cb))) w
  | CameraBtnClick => exec cameraBtnClick w
  | ScreenShareBtnClick => exec screenShareBtnClick w
  | NewCameraSelected v => exec (newCameraSelected v) w
  | NewMicSelected v => exec (newMicSelected v) w
  | MicBtnClick => exec micBtnClick w
  | MicOffBtnClick => exec micOffBtnClick w
  | ConnectionStarted => exec onConnectionStarted w
  | DisconnectBtnClick => exec disconnectBtnClick w
  | PromiseSettles p o => exec (settle p o) w
  | AnimationFrame => snd (animation_frame w)
  | VideoReports vw vh pic => exec (video_reports vw vh pic) w
  | AudioProcess g buf => exec (audio_process g buf) w
  end.

Definition run (inputs : list Input) (w : World) : World :=
  foldl (λ w i, step i w) w inputs.

(** ** Observations *)

Definition live_tracks (ms : MediaStream) : nat :=
  length (filter (λ t, t = Live) (tracks ms)).

(** Streams of kind [k] with a live track. *)
Definition live_sources (k : SourceKind) (b : Browser) : nat :=
  length (filter (λ ms, kind ms = k ∧ 0 < live_tracks ms) (streams b)).

(** The stream a handle points to has a live track. *)
Definition handle_live (h : JsValue) (b : Browser) : bool :=
  match h with
  | Some s => match streams b !! s with
              | Some ms => bool_decide (0 < live_tracks ms)
              | None => false
              end
  | None => false
  end.

Definition frames_delivered (es : list Effect) : list (Callback * DataURL) :=
  omap (λ e, match e with FrameDelivered cb d => Some (cb, d) | _ => None end) es.
Definition frames_encoded (es : list Effect) : list DataURL :=
  omap (λ e, match e with Encoded d => Some d | _ => None end) es.
Definition chunks_delivered (es : list Effect) : list (Callback * list Sample) :=
  omap (λ e, match e with ChunkDelivered cb d => Some (cb, d) | _ => None end) es.

Definition loops_of (l : Loop) (b : Browser) : nat :=
  length (filter (λ l', l' = l) (frameRequests b)).
(** Streams of kind [k] the platform has handed over so far: one per
    granted acquisition. *)
Definition acquired (k : SourceKind) (b : Browser) : nat :=
  length (filter (λ k', k' = k) (kind <$> streams b)).

(** ** Vocabulary of the properties *)

(** The source reports strictly positive width and height. *)
Definition ready (v : VideoElement) : bool :=
  (0 <? videoWidth v)%N && (0 <? videoHeight v)%N.

Definition jpeg_of (v : VideoElement) : DataURL :=
  ImageData "image/jpeg" (videoWidth v) (videoHeight v) (Some (picture v)).

(** What one run of [captureFrame] shows to the outside. *)
Definition sample_effects (cb : option Callback) (v : VideoElement) : list Effect :=
  if ready v then
    Drawn (picture v) (videoWidth v) (videoHeight v)
    :: match cb with
       | Some cb => [Encoded (jpeg_of v); FrameDelivered cb (jpeg_of v)]
       | None => []
       end
  else [].

Definition sampled_canvas (v : VideoElement) (c : CanvasElement) : CanvasElement :=
  if ready v then mkCanvas (videoWidth v) (videoHeight v) (Some (picture v)) else c.

Definition after_sample (l : Loop) (cb : option Callback) (b : Browser) : Browser :=
  mkBrowser (streams b) (promises b) (video b) (sampled_canvas (video b) (canvas b))
            (frameRequests b ++ [l]) (audioGraphs b)
            (log b ++ sample_effects cb (video b)).

(** The receiver a loop delivers to. *)
Definition loop_callback (l : Loop) (w : World) : option Callback :=
  match l with
  | CameraLoop => LiveVideoManager.onNewFrame (liveVideoManager w)
  | ScreenLoop => LiveScreenManager.onNewFrame (liveScreenManager w)
  end.

Definition with_browser (b : Browser) (w : World) : World :=
  mkWorld b (liveVideoManager w) (liveScreenManager w) (liveAudioInputManager w).

(** The browser after the loops [q] have each run once. *)
Definition after_loops (q : list Loop) (w : World) : Browser :=
  let b := browser w in
  mkBrowser (streams b) (promises b) (video b)
            (match q with [] => canvas b | _ => sampled_canvas (video b) (canvas b) end)
            (frameRequests b ++ q) (audioGraphs b)
            (log b ++ flat_map (λ l, sample_effects (loop_callback l w) (video b)) q).

Definition rejection_message (f : AsyncFrame) : option string :=
  match f with
  | InStartWebcam => Some "Error starting webcam:"
  | InStartCapture => Some "Error starting screen capture:"
  | InConnectMicrophone => Some "Error connecting microphone:"
  | InUpdateWebcamDevice | InUpdateMicrophoneDevice => None
  end.

(** No track of any stream is live. *)
Definition no_live_track (b : Browser) : Prop :=
  Forall (λ ms, live_tracks ms = 0) (streams b).

(** One sampling tick: the element reports its current size and picture,
    then the display refreshes. *)
Definition tick (report : N * N * Picture) (w : World) : World :=
  let '(vw, vh, pic) := report in
  run [VideoReports vw vh pic; AnimationFrame] w.

Definition tick_completions (report : N * N * Picture) (w : World) : list (Completion unit) :=
  let '(vw, vh, pic) := report in
  (animation_frame (step (VideoReports vw vh pic) w)).1.

Definition drive (reports : list (N * N * Picture)) (w : World) : World :=
  foldl (λ w r, tick r w) w reports.

Definition reported (report : N * N * Picture) (v : VideoElement) : VideoElement :=
  let '(vw, vh, pic) := report in mkVideo (srcObject v) vw vh pic.

(** The two classes have the same fields. *)
Definition as_video (o : LiveScreenManager.t) : LiveVideoManager.t :=
  LiveVideoManager.mk (LiveScreenManager.stream o) (LiveScreenManager.onNewFrame o).
Definition as_screen (o : LiveVideoManager.t) : LiveScreenManager.t :=
  LiveScreenManager.mk (LiveVideoManager.stream o) (LiveVideoManager.onNewFrame o).

Definition other (l : Loop) : Loop :=
  match l with CameraLoop => ScreenLoop | ScreenLoop => CameraLoop end.

(** The same page with the two video managers exchanged: each has the
    other's fields and owns the other's registered loops. *)
Definition mirror (w : World) : World :=
  mkWorld (set_frameRequests (fmap other) (browser w))
          (as_video (liveScreenManager w)) (as_screen (liveVideoManager w))
          (liveAudioInputManager w).

(** The samples of channel [i] of a buffer. *)
Definition channel (i : nat) (c : AudioBuffer) : list Sample := default [] (c !! i).

(** The buffers the platform hands to a processor have the channel count
    and the length the processor was created with. *)
Definition chunk_fits (graph : AudioGraph) (c : AudioBuffer) : Prop :=
  length c = numberOfInputChannels graph
  ∧ Forall (λ data, length data = bufferSize graph) c.

(** The display shows nothing, or the camera manager holds a stream: no
    other component has bound the display. *)
Definition camera_owns_display (w : World) : Prop :=
  srcObject (video (browser w)) = None
  ∨ is_Some (LiveVideoManager.stream (liveVideoManager w)).

(** The activations waiting on an acquisition are the ones the classes
    suspend on it: the starting method, and the switching method when the
    start was called from it. *)
Definition stack_fits (r : MediaRequest) (stack : list AsyncFrame) : Prop :=
  match r with
  | UserMediaVideo _ =>
      stack = [InStartWebcam] ∨ stack = [InStartWebcam; InUpdateWebcamDevice]
  | DisplayMediaVideo => stack = [InStartCapture]
  | UserMediaAudio _ =>
      stack = [InConnectMicrophone]
      ∨ stack = [InConnectMicrophone; InUpdateMicrophoneDevice]
  end.

Definition promise_fits (st : PromiseState) : Prop :=
  match st with
  | Awaiting r stack => stack_fits r stack
  | Settled => True
  end.

(** One registered loop per granted video acquisition. *)
Definition consistent (b : Browser) : Prop :=
  Forall promise_fits (promises b)
  ∧ loops_of CameraLoop b = acquired Camera b
  ∧ loops_of ScreenLoop b = acquired Screen b.

(** The effects of stopping every track of the stream a handle refers to. *)
Definition teardown (h : JsValue) (b : Browser) : list Effect :=
  match h with
  | Some s => imap (λ i _, TrackStopped s i) (getTracks s b)
  | None => []
  end.

(** Operations of the camera manager issued one at a time, each switch
    settled before the next operation. *)
Inductive AwaitedOp : Type :=
  | Stop
  | Switch (deviceId : string) (o : Outcome).

Definition awaited_op (w : World) (op : AwaitedOp) : World :=
  match op with
  | Stop => step StopWebcam w
  | Switch deviceId o =>
      let p := length (promises (browser w)) in
      run [UpdateWebcamDevice deviceId; PromiseSettles p o] w
  end.

(** Every stream of kind [k] other than the one the handle refers to has
    no live track. *)
Definition others_ended (k : SourceKind) (h : JsValue) (ss : list MediaStream) : Prop :=
  ∀ i ms, ss !! i = Some ms → kind ms = k → h ≠ Some i → live_tracks ms = 0.

Definition ended_handle (h : JsValue) (ss : list MediaStream) : list MediaStream :=
  match h with
  | Some s => alter end_tracks s ss
  | None => ss
  end.

(** The page's two video buttons, each acquisition settled before the
    next click. *)
Inductive Enable : Type :=
  | EnableCamera (o : Outcome)
  | EnableScreen (o : Outcome).

Definition awaited_enable (w : World) (e : Enable) : World :=
  let p := length (promises (browser w)) in
  match e with
  | EnableCamera o => run [CameraBtnClick; PromiseSettles p o] w
  | EnableScreen o => run [ScreenShareBtnClick; PromiseSettles p o] w
  end.

(** The switch, and the stop followed by the start it is compared with. *)
Definition camera_switch (deviceId : string) : M World Promise :=
  on_video (LiveVideoManager.updateWebcamDevice deviceId).
Definition camera_stop_start (deviceId : string) : M World Promise :=
  on_video (LiveVideoManager.stopWebcam ;; LiveVideoManager.startWebcam (Some deviceId)).
Definition microphone_switch (deviceId : string) : M World Promise :=
  on_audio (LiveAudioInputManager.updateMicrophoneDevice deviceId).
Definition microphone_stop_start (deviceId : string) : M World Promise :=
  on_audio (LiveAudioInputManager.disconnectMicrophone ;;
            LiveAudioInputManager.connectMicrophone (Some deviceId)).

(** ** The page beyond capture: status, buttons, chat, device lists *)

Module RadioButton.
Record t : Type := mk { checked : bool; value : string }.
End RadioButton.

(** [getSelectedResponseModality]: the loop over the radio buttons with
    its [break]; [None] is [undefined]. *)
Fixpoint getSelectedResponseModality (radioButtons : list RadioButton.t) : option string :=
  match radioButtons with
  | [] => None
  | radioButton :: rest =>
      if RadioButton.checked radioButton then Some (RadioButton.value radioButton)
      else getSelectedResponseModality rest
  end.

(** The [hidden] attribute of the four status indicators. *)
Record StatusDisplay : Type := mkStatus {
  disconnected_hidden : bool;
  connecting_hidden : bool;
  connected_hidden : bool;
  speaking_hidden : bool
}.

Definition setAppStatus (status : string) (d : StatusDisplay) : StatusDisplay :=
  let d := mkStatus true (connecting_hidden d) (connected_hidden d) (speaking_hidden d) in
  let d := mkStatus (disconnected_hidden d) true (connected_hidden d) (speaking_hidden d) in
  let d := mkStatus (disconnected_hidden d) (connecting_hidden d) true (speaking_hidden d) in
  let d := mkStatus (disconnected_hidden d) (connecting_hidden d) (connected_hidden d) true in
  if String.eqb status "disconnected" then
    mkStatus false (connecting_hidden d) (connected_hidden d) (speaking_hidden d)
  else if String.eqb status "connecting" then
    mkStatus (disconnected_hidden d) false (connected_hidden d) (speaking_hidden d)
  else if String.eqb status "connected" then
    mkStatus (disconnected_hidden d) (connecting_hidden d) false (speaking_hidden d)
  else if String.eqb status "speaking" then
    mkStatus (disconnected_hidden d) (connecting_hidden d) (connected_hidden d) false
  else d.

(** The indicators that are shown. *)
Definition shown (d : StatusDisplay) : list string :=
  (if disconnected_hidden d then [] else ["disconnected"])
  ++ (if connecting_hidden d then [] else ["connecting"])
  ++ (if connected_hidden d then [] else ["connected"])
  ++ (if speaking_hidden d then [] else ["speaking"]).

Module MediaDeviceInfo.
Record t : Type := mk { deviceId : string; kind : string; label : string }.
End MediaDeviceInfo.

(** The [{ id, name }] objects of [getAvailableDevices]. *)
Module DeviceEntry.
Record t : Type := mk { id : string; name : string }.
End DeviceEntry.

(** [a || b] on strings: the empty string is falsy. *)
Definition or_else (a b : string) : string :=
  if String.eqb a "" then b else a.

(** [getAvailableDevices] after its [await]: [allDevices] is what
    [enumerateDevices] resolved to. *)
Definition getAvailableDevices (allDevices : list MediaDeviceInfo.t) (deviceType : string)
    : list DeviceEntry.t :=
  foldl (λ devices device,
           if String.eqb (MediaDeviceInfo.kind device) deviceType
           then devices ++ [DeviceEntry.mk (MediaDeviceInfo.deviceId device)
                              (or_else (MediaDeviceInfo.label device)
                                       (MediaDeviceInfo.deviceId device))]
           else devices)
        [] allDevices.

Definition getAvailableCameras (allDevices : list MediaDeviceInfo.t) : list DeviceEntry.t :=
  getAvailableDevices allDevices "videoinput".
Definition getAvailableAudioInputs (allDevices : list MediaDeviceInfo.t) : list DeviceEntry.t :=
  getAvailableDevices allDevices "audioinput".

(** An [md-select-option]: its value and the markup of its headline. *)
Module SelectOption.
Record t : Type := mk { value : string; headline : string }.
End SelectOption.

(** [setMaterialSelect] on the options a select element holds. *)
Definition setMaterialSelect (allOptions : list DeviceEntry.t)
    (selectElement : list SelectOption.t) : list SelectOption.t :=
  foldl (λ children optionData,
           children ++ [SelectOption.mk (DeviceEntry.id optionData)
                                        (DeviceEntry.name optionData)])
        selectElement allOptions.

Definition setAvailableCamerasOptions (allDevices : list MediaDeviceInfo.t)
    (videoSelect : list SelectOption.t) : list SelectOption.t :=
  setMaterialSelect (getAvailableCameras allDevices) videoSelect.
Definition setAvailableMicrophoneOptions (allDevices : list MediaDeviceInfo.t)
    (audioSelect : list SelectOption.t) : list SelectOption.t :=
  setMaterialSelect (getAvailableAudioInputs allDevices) audioSelect.

(** The user picks option [i] of the camera (microphone) select: the
    select takes the option's value and the change handler runs. *)
Definition pick_camera (cameraSource : list SelectOption.t) (i : nat) : M World unit :=
  match cameraSource !! i with
  | Some option => newCameraSelected (SelectOption.value option)
  | None => ret ()
  end.
Definition pick_microphone (audioSource : list SelectOption.t) (i : nat) : M World unit :=
  match audioSource !! i with
  | Some option => newMicSelected (SelectOption.value option)
  | None => ret ()
  end.

(** Calls and assignments on the transport client and on the audio output
    manager, whose classes are not among the sources: each is recorded and
    returns normally. *)
Inductive ApiCall : Type :=
  | SetResponseModalities (v : option string)
  | SetSystemInstructions (v : string)
  | SetOnConnectionStarted
  | SetProjectId (v : string)
  | Connect (token : string)
  | Disconnect
  | SendTextMessage (text : string)
  | PlayAudioChunk (data : string).

Record Page : Type := mkPage {
  world : World;
  status : StatusDisplay;
  micBtn_hidden : bool;
  micOffBtn_hidden : bool;
  dialogMessage : string;
  dialog_open : bool;
  textChat : list string;
  textMessage : string;
  api : list ApiCall
}.

Definition on_world {A} (m : M World A) : M Page A :=
  zoom world
       (λ w pg, mkPage w (status pg) (micBtn_hidden pg) (micOffBtn_hidden pg)
                       (dialogMessage pg) (dialog_open pg) (textChat pg) (textMessage pg)
                       (api pg)) m.
Definition set_status (f : StatusDisplay → StatusDisplay) : M Page unit :=
  modify (λ pg, mkPage (world pg) (f (status pg)) (micBtn_hidden pg) (micOffBtn_hidden pg)
                       (dialogMessage pg) (dialog_open pg) (textChat pg) (textMessage pg)
                       (api pg)).
Definition set_micBtn_hidden (v : bool) : M Page unit :=
  modify (λ pg, mkPage (world pg) (status pg) v (micOffBtn_hidden pg)
                       (dialogMessage pg) (dialog_open pg) (textChat pg) (textMessage pg)
                       (api pg)).
Definition set_micOffBtn_hidden (v : bool) : M Page unit :=
  modify (λ pg, mkPage (world pg) (status pg) (micBtn_hidden pg) v
                       (dialogMessage pg) (dialog_open pg) (textChat pg) (textMessage pg)
                       (api pg)).
Definition set_dialog (message : string) (open : bool) : M Page unit :=
  modify (λ pg, mkPage (world pg) (status pg) (micBtn_hidden pg) (micOffBtn_hidden pg)
                       message open (textChat pg) (textMessage pg)
                       (api pg)).
Definition set_textChat (f : list string → list string) : M Page unit :=
  modify (λ pg, mkPage (world pg) (status pg) (micBtn_hidden pg) (micOffBtn_hidden pg)
                       (dialogMessage pg) (dialog_open pg) (f (textChat pg)) (textMessage pg)
                       (api pg)).
Definition set_textMessage (v : string) : M Page unit :=
  modify (λ pg, mkPage (world pg) (status pg) (micBtn_hidden pg) (micOffBtn_hidden pg)
                       (dialogMessage pg) (dialog_open pg) (textChat pg) v
                       (api pg)).
Definition call_api (c : ApiCall) : M Page unit :=
  modify (λ pg, mkPage (world pg) (status pg) (micBtn_hidden pg) (micOffBtn_hidden pg)
                       (dialogMessage pg) (dialog_open pg) (textChat pg) (textMessage pg)
                       (api pg ++ [c])).

(** The handlers of the page script with everything they assign. *)
Module Handlers.

Definition showDialogWithMessage (messageText : string) : M Page unit :=
  set_dialog messageText true.

(** [geminiLiveApi.onErrorMessage] *)
Definition onErrorMessage (message : string) : M Page unit :=
  showDialogWithMessage message ;;
  set_status (setAppStatus "disconnected").

(** The handler [connectBtnClick] assigns to
    [geminiLiveApi.onConnectionStarted]. *)
Definition onConnectionStarted : M Page unit :=
  set_status (setAppStatus "connected") ;;
  on_world startAudioInput.

(** [connectBtnClick], with what it reads from the form at the click. *)
Definition connectBtnClick (radioButtons : list RadioButton.t)
    (systemInstructionsInput projectInput accessTokenInput : string) : M Page unit :=
  set_status (setAppStatus "connecting") ;;
  call_api (SetResponseModalities (getSelectedResponseModality radioButtons)) ;;
  call_api (SetSystemInstructions systemInstructionsInput) ;;
  call_api SetOnConnectionStarted ;;
  call_api (SetProjectId projectInput) ;;
  call_api (Connect accessTokenInput).

Definition disconnectBtnClick : M Page unit :=
  set_status (setAppStatus "disconnected") ;;
  call_api Disconnect ;;
  on_world stopAudioInput.

Definition micBtnClick : M Page unit :=
  on_world stopAudioInput ;;
  set_micBtn_hidden true ;;
  set_micOffBtn_hidden false.

Definition micOffBtnClick : M Page unit :=
  on_world startAudioInput ;;
  set_micBtn_hidden false ;;
  set_micOffBtn_hidden true.

Definition addMessageToChat (message : string) : M Page unit :=
  set_textChat (λ paragraphs, paragraphs ++ [message]).

Definition newModelMessage (message : string) : M Page unit :=
  addMessageToChat (">> " +:+ message).

Definition newUserMessage : M Page unit :=
  v <- gets textMessage ;;
  addMessageToChat ("User: " +:+ v) ;;
  v <- gets textMessage ;;
  call_api (SendTextMessage v) ;;
  set_textMessage "".

(** [geminiLiveApi.onReceiveResponse] *)
Definition onReceiveResponse (type data : string) : M Page unit :=
  if String.eqb type "AUDIO" then call_api (PlayAudioChunk data)
  else if String.eqb type "TEXT" then newModelMessage data
  else ret ().

End Handlers.

(** What happens in the chat: the user types a text and sends it, or a
    response arrives. *)
Inductive ChatEvent : Type :=
  | UserSends (typed : string)
  | Response (type data : string).

Definition chat_step (pg : Page) (e : ChatEvent) : Page :=
  match e with
  | UserSends typed => exec (set_textMessage typed ;; Handlers.newUserMessage) pg
  | Response type data => exec (Handlers.onReceiveResponse type data) pg
  end.

(** The paragraph an event adds to the chat, if any. *)
Definition transcript (e : ChatEvent) : option string :=
  match e with
  | UserSends typed => Some ("User: " +:+ typed)
  | Response type data => if String.eqb type "TEXT" then Some (">> " +:+ data) else None
  end.

(** The call an event makes on the transport or on the audio output, if
    any. *)
Definition chat_call (e : ChatEvent) : option ApiCall :=
  match e with
  | UserSends typed => Some (SendTextMessage typed)
  | Response type data => if String.eqb type "AUDIO" then Some (PlayAudioChunk data) else None
  end.

(** Everything that can happen to the page: an input of the capture
    pipeline (the handlers that also drive a control run in full), the
    connect button with what the form holds at the click, an error
    reported by the transport, and the chat. *)
Inductive PageEvent : Type :=
  | OnInput (i : Input)
  | OnConnectBtnClick (radioButtons : list RadioButton.t)
      (systemInstructionsInput projectInput accessTokenInput : string)
  | OnErrorMessage (message : string)
  | OnChat (e : ChatEvent).

Definition page_step (pg : Page) (ev : PageEvent) : Page :=
  match ev with
  | OnInput MicBtnClick => exec Handlers.micBtnClick pg
  | OnInput MicOffBtnClick => exec Handlers.micOffBtnClick pg
  | OnInput ConnectionStarted => exec Handlers.onConnectionStarted pg
  | OnInput DisconnectBtnClick => exec Handlers.disconnectBtnClick pg
  | OnInput i => exec (on_world (modify (step i))) pg
  | OnConnectBtnClick radioButtons systemInstructionsInput projectInput accessTokenInput =>
      exec (Handlers.connectBtnClick radioButtons systemInstructionsInput projectInput
              accessTokenInput) pg
  | OnErrorMessage message => exec (Handlers.onErrorMessage message) pg
  | OnChat e => chat_step pg e
  end.

Definition page_run (events : list PageEvent) (pg : Page) : Page :=
  foldl page_step pg events.

(** The input of the capture pipeline in a page event. *)
Definition capture_input (ev : PageEvent) : option Input :=
  match ev with
  | OnInput i => Some i
  | _ => None
  end.

(** The status a page event asks [setAppStatus] for. *)
Definition status_of (ev : PageEvent) : option string :=
  match ev with
  | OnConnectBtnClick _ _ _ _ => Some "connecting"
  | OnInput ConnectionStarted => Some "connected"
  | OnInput DisconnectBtnClick | OnErrorMessage _ => Some "disconnected"
  | _ => None
  end.

(** Whether a page event is a click on a microphone button, and on
    which: [true] for the button that turns the microphone off. *)
Definition microphone_click (ev : PageEvent) : option bool :=
  match ev with
  | OnInput MicBtnClick => Some true
  | OnInput MicOffBtnClick => Some false
  | _ => None
  end.

(** The calls a page event makes on the transport and the audio output. *)
Definition api_calls (ev : PageEvent) : list ApiCall :=
  match ev with
  | OnConnectBtnClick radioButtons systemInstructionsInput projectInput accessTokenInput =>
      [SetResponseModalities (getSelectedResponseModality radioButtons);
       SetSystemInstructions systemInstructionsInput;
       SetOnConnectionStarted;
       SetProjectId projectInput;
       Connect accessTokenInput]
  | OnInput DisconnectBtnClick => [Disconnect]
  | OnChat e => option_list (chat_call e)
  | _ => []
  end.

(** The paragraph a page event adds to the chat, if any. *)
Definition paragraph (ev : PageEvent) : option string :=
  match ev with
  | OnChat e => transcript e
  | _ => None
  end.

(** ** class CookieJar *)

Module CookieJar.

(** What the class writes to the console, by message. *)
Inductive ConsoleEntry : Type :=
  | ElementNotFound (elementId : string)
  | FoundCookie (elementId savedValue : string)
  | SavingValue (elementId : string)
  | NameAndValueRequired
  | CookieSet (name : string)
  | NameRequired
  | CookieDeleted (name : string).

(** The closure [init] adds for 'input' events: what it has captured
    besides the element it is added to. *)
Record Listener : Type := mkListener {
  elementId : string;
  cookieName : string
}.

Record InputElement : Type := mkInput {
  id : string;
  value : string;
  input_listeners : list Listener
}.

(** The document: its elements in document order (an element is referred
    to by its position), what reading [document.cookie] gives,
    the strings assigned to [document.cookie] (oldest first), the console
    and the clock in milliseconds. *)
Record Document : Type := mkDocument {
  elements : list InputElement;
  cookie : string;
  assigned : list string;
  console : list ConsoleEntry;
  clock : Z
}.

Definition console_write (e : ConsoleEntry) : M Document unit :=
  modify (λ d, mkDocument (elements d) (cookie d) (assigned d) (console d ++ [e]) (clock d)).

(** [document.cookie = s] *)
Definition assign_cookie (s : string) : M Document unit :=
  modify (λ d, mkDocument (elements d) (cookie d) (assigned d ++ [s]) (console d) (clock d)).

Definition set_elements (f : list InputElement → list InputElement) : M Document unit :=
  modify (λ d, mkDocument (f (elements d)) (cookie d) (assigned d) (console d) (clock d)).

(** [document.getElementById]: the first element with that id, or
    [null]. *)
Definition getElementById (elementId : string) : M Document (option nat) :=
  gets (λ d, fst <$> list_find (λ e, id e = elementId) (elements d)).

(** [element.value] and [element.value = v] *)
Definition get_value (element : nat) : M Document string :=
  gets (λ d, default EmptyString (value <$> elements d !! element)).
Definition set_value (element : nat) (v : string) : M Document unit :=
  set_elements (alter (λ e, mkInput (id e) v (input_listeners e)) element).

(** [element.addEventListener('input', closure)] *)
Definition addEventListener (element : nat) (l : Listener) : M Document unit :=
  set_elements (alter (λ e, mkInput (id e) (value e) (input_listeners e ++ [l])) element).

(** The completion of a call into the platform that leaves the document
    as it is. *)
Definition platform {A} (c : Completion A) : M Document A := λ d, (c, d).

(** The time value a Date keeps: out of range it is not a time. *)
Definition TimeClip (t : Z) : option Z :=
  if (Z.abs t <=? 8640000000000000)%Z then Some t else None.

Section Platform.
(** The functions of the platform the class calls: URI component coding
    (which can throw), the match of the pattern [getCookie] builds from a
    name against the cookie string, giving the last group of the match,
    and the rendering of a Date. *)
Variable encodeURIComponent : string → Completion string.
Variable decodeURIComponent : string → Completion string.
Variable cookie_match : string → string → option string.
Variable toUTCString : option Z → string.

Definition setCookie (name value : string) (days : Z) : M Document unit :=
  if String.eqb name "" || String.eqb value "" then
    console_write NameAndValueRequired
  else
    now <- gets clock ;;
    let expires := TimeClip (now + days * 24 * 60 * 60 * 1000) in
    encoded <- platform (encodeURIComponent value) ;;
    assign_cookie (name +:+ "=" +:+ encoded +:+ ";expires=" +:+ toUTCString expires
                   +:+ ";path=/;Secure;HttpOnly") ;;
    console_write (CookieSet name).

Definition getCookie (name : string) : M Document (option string) :=
  if String.eqb name "" then
    console_write NameRequired ;;
    ret None
  else
    jar <- gets cookie ;;
    match cookie_match jar name with
    | Some cookieValue =>
        v <- platform (decodeURIComponent cookieValue) ;;
        ret (Some v)
    | None => ret None
    end.

Definition deleteCookie (name : string) : M Document unit :=
  if String.eqb name "" then
    console_write NameRequired
  else
    assign_cookie (name +:+ "=;expires=Thu, 01 Jan 1970 00:00:00 GMT;path=/;Secure;HttpOnly") ;;
    console_write (CookieDeleted name).

(** The body of the closure [init] adds, on the element it was added
    to; [setCookie] is called with two arguments, so [days] is 365. *)
Definition input_listener (element : nat) (l : Listener) : M Document unit :=
  console_write (SavingValue (elementId l)) ;;
  v <- get_value element ;;
  setCookie (cookieName l) v 365.

Definition init (elementId : string) : M Document unit :=
  element <- getElementById elementId ;;
  match element with
  | None => console_write (ElementNotFound elementId)
  | Some element =>
      let cookieName := "CookieJar_" +:+ elementId in
      savedValue <- getCookie cookieName ;;
      (match savedValue with
       | Some savedValue =>
           if String.eqb savedValue "" then ret ()
           else
             console_write (FoundCookie elementId savedValue) ;;
             set_value element savedValue
       | None => ret ()
       end) ;;
      addEventListener element (mkListener elementId cookieName)
  end.

(** The three calls at the top of the page script. *)
Definition page_script : M Document unit :=
  init "token" ;;
  init "project" ;;
  init "systemInstructions".

(** The listeners of an element run in the order they were added; each
    runs to completion, and the next one runs whatever it was. *)
Fixpoint run_listeners (element : nat) (ls : list Listener) (d : Document)
    : list (Completion unit) * Document :=
  match ls with
  | [] => ([], d)
  | l :: ls =>
      let '(c, d) := input_listener element l d in
      let '(cs, d) := run_listeners element ls d in
      (c :: cs, d)
  end.

(** The user edits an element at time [now], leaving [v] in it: the
    platform fires 'input' on the element. *)
Definition input_event (element : nat) (v : string) (now : Z) (d : Document)
    : list (Completion unit) * Document :=
  let d := mkDocument (alter (λ e, mkInput (id e) v (input_listeners e)) element (elements d))
                      (cookie d) (assigned d) (console d) now in
  match elements d !! element with
  | Some e => run_listeners element (input_listeners e) d
  | None => ([], d)
  end.

Definition typing (element : nat) (edits : list (string * Z)) (d : Document)
    : Document :=
  foldl (λ d edit, (input_event element edit.1 edit.2 d).2) d edits.

(** The string one listener assigns to [document.cookie] for the value
    [v] at time [now], if it assigns any. *)
Definition saved_as (v : string) (now : Z) (l : Listener) : option string :=
  if String.eqb (cookieName l) "" || String.eqb v "" then None
  else match encodeURIComponent v with
       | Normal encoded =>
           Some (cookieName l +:+ "=" +:+ encoded +:+ ";expires="
                 +:+ toUTCString (TimeClip (now + 31536000000)) +:+ ";path=/;Secure;HttpOnly")
       | Throw _ => None
       end.

End Platform.

End CookieJar.

(** ** Vocabulary of the state invariants *)

(** The kinds of the streams handed over so far, by handle. *)
Definition kinds (b : Browser) : list SourceKind := kind <$> streams b.

(** A handle is null or refers to a stream of kind [k]. *)
Definition refers_to (k : SourceKind) (h : JsValue) (b : Browser) : Prop :=
  match h with
  | Some s => kinds b !! s = Some k
  | None => True
  end.

(** The display is unbound or bound to a camera or screen stream. *)
Definition display_refers (b : Browser) : Prop :=
  match srcObject (video b) with
  | Some s => kinds b !! s = Some Camera ∨ kinds b !! s = Some Screen
  | None => True
  end.

Definition handles_sound (w : World) : Prop :=
  refers_to Camera (LiveVideoManager.stream (liveVideoManager w)) (browser w)
  ∧ refers_to Screen (LiveScreenManager.stream (liveScreenManager w)) (browser w)
  ∧ refers_to Microphone (LiveAudioInputManager.stream (liveAudioInputManager w)) (browser w)
  ∧ display_refers (browser w).

(** The graph [processAudioStream] builds on a stream handle. *)
Definition microphone_graph (h : JsValue) : AudioGraph := mkGraph h 4096 1 1 true true true.

(** One audio graph per microphone stream handed over, each with the
    fixed configuration and its handler installed. *)
Definition graphs_sound (b : Browser) : Prop :=
  length (audioGraphs b) = acquired Microphone b
  ∧ Forall (λ g, g = microphone_graph (source g)) (audioGraphs b).

(** The promises asked for in a stretch of the log, in order. *)
Definition requested (es : list Effect) : list Promise :=
  omap (λ e, match e with Requested p _ => Some p | _ => None end) es.

(** A delivered frame is a JPEG of positive size with a picture in it. *)
Definition frame_ok (d : DataURL) : Prop :=
  ∃ w h pic, d = ImageData "image/jpeg" w h (Some pic) ∧ (0 < w)%N ∧ (0 < h)%N.

Definition frames_ok (es : list Effect) : Prop :=
  Forall (λ e, match e with FrameDelivered _ d => frame_ok d | _ => True end) es.

(** The inputs that come from the platform rather than from the page. *)
Definition platform_input (i : Input) : bool :=
  match i with
  | PromiseSettles _ _ | AnimationFrame | VideoReports _ _ _ | AudioProcess _ _ => true
  | _ => false
  end.

(** A page whose managers hold no stream yet, over an empty browser. *)
Definition fresh_page (cbv cbs cba : option Callback) : World :=
  mkWorld empty_browser (LiveVideoManager.mk None cbv) (LiveScreenManager.mk None cbs)
          (LiveAudioInputManager.mk None cba).

(** The effects of one step: frames it delivers are well formed, and it
    asks the platform exactly for the promises it creates. *)
Definition step_adds (w w' : World) (es : list Effect) : Prop :=
  log (browser w') = log (browser w) ++ es
  ∧ frames_ok es
  ∧ length (promises (browser w)) ≤ length (promises (browser w'))
  ∧ requested es
    = seq (length (promises (browser w)))
          (length (promises (browser w')) - length (promises (browser w))).

(** * Properties *)

(** ** Helper lemmas on the browser operations *)

Lemma live_tracks_ended k n : live_tracks (mkStream k (replicate n Ended)) = 0.
Proof.
  unfold live_tracks; cbn [tracks]. induction n as [|n IH]; [done|].
  cbn [replicate]. rewrite filter_cons_False by done. exact IH.
Qed.

Lemma lookup_last {A} (l : list A) x : (l ++ [x]) !! length l = Some x.
Proof. by apply list_lookup_middle. Qed.

Lemma alter_last {A} (f : A → A) (l : list A) x :
  alter f (length l) (l ++ [x]) = l ++ [f x].
Proof.
  replace (length l) with (length l + 0) by lia. by rewrite alter_app_r.
Qed.

Lemma insert_last {A} (l : list A) x y : <[length l := y]> (l ++ [x]) = l ++ [y].
Proof. by rewrite list_insert_alter, alter_last. Qed.

Lemma stop_all_tracks_streams s b :
  streams (stop_all_tracks s b)
  = alter end_tracks s (streams b).
Proof. done. Qed.

(** ** C6: stop is idempotent *)

(** C6.  For the camera, screen and microphone managers alike, in every
    state: stop returns normally; with a null stream handle it changes
    nothing; and a second stop right after a first one changes nothing. *)
Theorem stop_idempotent :
  (∀ w, result (on_video LiveVideoManager.stopWebcam) w = Normal ()
        ∧ result (on_screen LiveScreenManager.stopCapture) w = Normal ()
        ∧ result (on_audio LiveAudioInputManager.disconnectMicrophone) w = Normal ())
  ∧ (∀ b cb scr aud,
        let w := mkWorld b (LiveVideoManager.mk None cb) scr aud in
        on_video LiveVideoManager.stopWebcam w = (Normal (), w))
  ∧ (∀ b cb vid aud,
        let w := mkWorld b vid (LiveScreenManager.mk None cb) aud in
        on_screen LiveScreenManager.stopCapture w = (Normal (), w))
  ∧ (∀ b cb vid scr,
        let w := mkWorld b vid scr (LiveAudioInputManager.mk None cb) in
        on_audio LiveAudioInputManager.disconnectMicrophone w = (Normal (), w))
  ∧ (∀ w, let stop := on_video LiveVideoManager.stopWebcam in
          stop (exec stop w) = (Normal (), exec stop w))
  ∧ (∀ w, let stop := on_screen LiveScreenManager.stopCapture in
          stop (exec stop w) = (Normal (), exec stop w))
  ∧ (∀ w, let stop := on_audio LiveAudioInputManager.disconnectMicrophone in
          stop (exec stop w) = (Normal (), exec stop w)).
Proof.
  repeat split.
  - by destruct w as [b [[s|] cb] scr aud].
  - by destruct w as [b vid [[s|] cb] aud].
  - by destruct w as [b vid scr [[s|] cb]].
  - by destruct w as [b [[s|] cb] scr aud].
  - by destruct w as [b vid [[s|] cb] aud].
  - by destruct w as [b vid scr [[s|] cb]].
Qed.

(** ** One sampling tick in closed form *)

Lemma N_pos_nonzero (n : N) : (0 <? n)%N = true → (n =? 0)%N = false.
Proof. intros H. apply N.ltb_lt in H. apply N.eqb_neq. lia. Qed.

Lemma video_captureFrame_eq (o : LiveVideoManager.t) (b : Browser) :
  LiveVideoManager.captureFrame (o, b)
  = (Normal (), (o, after_sample CameraLoop (LiveVideoManager.onNewFrame o) b)).
Proof.
  destruct o as [s cb], b as [ss ps [src vw vh pic] [cw ch bm] q g l].
  unfold LiveVideoManager.captureFrame, after_sample, sample_effects, sampled_canvas, ready.
  cbn. destruct (0 <? vw)%N eqn:Ew; cbn; [destruct (0 <? vh)%N eqn:Eh; cbn|];
    rewrite ?app_nil_r; try done.
  destruct cb as [cb|]; cbn; [|done].
  unfold toDataURL; cbn.
  rewrite (N_pos_nonzero _ Ew), (N_pos_nonzero _ Eh).
  cbv -[app]. by rewrite <- !app_assoc.
Qed.

Lemma screen_captureFrame_eq (o : LiveScreenManager.t) (b : Browser) :
  LiveScreenManager.captureFrame (o, b)
  = (Normal (), (o, after_sample ScreenLoop (LiveScreenManager.onNewFrame o) b)).
Proof.
  destruct o as [s cb], b as [ss ps [src vw vh pic] [cw ch bm] q g l].
  unfold LiveScreenManager.captureFrame, after_sample, sample_effects, sampled_canvas, ready.
  cbn. destruct (0 <? vw)%N eqn:Ew; cbn; [destruct (0 <? vh)%N eqn:Eh; cbn|];
    rewrite ?app_nil_r; try done.
  destruct cb as [cb|]; cbn; [|done].
  unfold toDataURL; cbn.
  rewrite (N_pos_nonzero _ Ew), (N_pos_nonzero _ Eh).
  cbv -[app]. by rewrite <- !app_assoc.
Qed.

Lemma run_loop_eq l w :
  run_loop l w = (Normal (), with_browser (after_sample l (loop_callback l w) (browser w)) w).
Proof.
  destruct l; unfold run_loop, on_video, on_screen, zoom.
  - rewrite video_captureFrame_eq. by destruct w.
  - rewrite screen_captureFrame_eq. by destruct w.
Qed.

Lemma sampled_canvas_idem v c : sampled_canvas v (sampled_canvas v c) = sampled_canvas v c.
Proof. unfold sampled_canvas. by destruct (ready v). Qed.

Lemma run_callbacks_eq q w :
  run_callbacks q w = (replicate (length q) (Normal ()), with_browser (after_loops q w) w).
Proof.
  revert w. induction q as [|l q IH]; intros w.
  - cbn. unfold after_loops, with_browser. destruct w as [[] ? ? ?]; cbn.
    by rewrite !app_nil_r.
  - cbn [run_callbacks]. rewrite run_loop_eq, IH. cbn [length replicate]. f_equal.
    destruct w as [[ss ps v c fq g lg] vm sm am]. unfold with_browser, after_loops, after_sample.
    cbn. rewrite <- !app_assoc. cbn.
    do 2 f_equal. destruct q; [done|]. by rewrite sampled_canvas_idem.
Qed.

Lemma animation_frame_eq w :
  animation_frame w
  = (replicate (length (frameRequests (browser w))) (Normal ()),
     with_browser
       (let b := browser w in
        let q := frameRequests b in
        mkBrowser (streams b) (promises b) (video b)
          (match q with [] => canvas b | _ => sampled_canvas (video b) (canvas b) end)
          q (audioGraphs b)
          (log b ++ flat_map (λ l, sample_effects (loop_callback l w) (video b)) q)) w).
Proof.
  unfold animation_frame. rewrite run_callbacks_eq.
  by destruct w as [[ss ps v c fq g lg] vm sm am].
Qed.

(** ** Acquisition in closed form *)

Lemma video_resume_fulfilled o b v :
  LiveVideoManager.startWebcam_resume (Normal v) (o, b)
  = (Normal (),
     (LiveVideoManager.set_stream v o,
      after_sample CameraLoop (LiveVideoManager.onNewFrame o) (play (assign_srcObject v b)))).
Proof.
  unfold LiveVideoManager.startWebcam_resume, LiveVideoManager.captureFrames,
    try_catch, bind, awaited, this_set, this_get, on_browser, modify, gets.
  cbn [fst snd]. rewrite video_captureFrame_eq. by destruct o.
Qed.

Lemma video_resume_rejected o b e :
  LiveVideoManager.startWebcam_resume (Throw e) (o, b)
  = (Throw e, (o, emit (ConsoleError "Error starting webcam:" e) b)).
Proof. done. Qed.

Lemma screen_resume_fulfilled o b v :
  LiveScreenManager.startCapture_resume (Normal v) (o, b)
  = (Normal (),
     (LiveScreenManager.set_stream v o,
      after_sample ScreenLoop (LiveScreenManager.onNewFrame o) (play (assign_srcObject v b)))).
Proof.
  unfold LiveScreenManager.startCapture_resume, LiveScreenManager.captureFrames,
    try_catch, bind, awaited, this_set, this_get, on_browser, modify, gets.
  cbn [fst snd]. rewrite screen_captureFrame_eq. by destruct o.
Qed.

Lemma screen_resume_rejected o b e :
  LiveScreenManager.startCapture_resume (Throw e) (o, b)
  = (Throw e, (o, emit (ConsoleError "Error starting screen capture:" e) b)).
Proof. done. Qed.

Lemma audio_resume_fulfilled o b v :
  LiveAudioInputManager.connectMicrophone_resume (Normal v) (o, b)
  = (Normal (),
     (LiveAudioInputManager.set_stream v o,
      set_audioGraphs (λ gs, gs ++ [mkGraph v 4096 1 1 true true true]) b)).
Proof. by destruct o. Qed.

Lemma audio_resume_rejected o b e :
  LiveAudioInputManager.connectMicrophone_resume (Throw e) (o, b)
  = (Throw e, (o, emit (ConsoleError "Error connecting microphone:" e) b)).
Proof. done. Qed.

Lemma settle_awaiting w p r stack o :
  promises (browser w) !! p = Some (Awaiting r stack) →
  settle p o w
  = let b := set_promises (<[p := Settled]>) (browser w) in
    match o with
    | Granted n =>
        resume_stack stack (Normal (Some (length (streams b))))
          (with_browser (set_streams (λ ss, ss ++ [mkStream (request_kind r) (replicate n Live)]) b) w)
    | Denied e => resume_stack stack (Throw e) (with_browser b w)
    end.
Proof. intros E. unfold settle. rewrite E. by destruct o. Qed.

Lemma settle_not_awaiting w p o :
  (∀ r stack, promises (browser w) !! p ≠ Some (Awaiting r stack)) →
  settle p o w = (Normal None, w).
Proof.
  intros E. unfold settle. destruct (promises (browser w) !! p) as [[r stack|]|] eqn:E'; try done.
  by destruct (E r stack).
Qed.

(** Resuming an activation, on the page. *)

Lemma resume_startWebcam_fulfilled v w :
  resume InStartWebcam (Normal v) w
  = (Normal None,
     mkWorld (after_sample CameraLoop (LiveVideoManager.onNewFrame (liveVideoManager w))
                (play (assign_srcObject v (browser w))))
             (LiveVideoManager.set_stream v (liveVideoManager w))
             (liveScreenManager w) (liveAudioInputManager w)).
Proof.
  unfold resume, bind, on_video, zoom. by rewrite video_resume_fulfilled.
Qed.

Lemma resume_startCapture_fulfilled v w :
  resume InStartCapture (Normal v) w
  = (Normal None,
     mkWorld (after_sample ScreenLoop (LiveScreenManager.onNewFrame (liveScreenManager w))
                (play (assign_srcObject v (browser w))))
             (liveVideoManager w)
             (LiveScreenManager.set_stream v (liveScreenManager w))
             (liveAudioInputManager w)).
Proof.
  unfold resume, bind, on_screen, zoom. by rewrite screen_resume_fulfilled.
Qed.

Lemma resume_connectMicrophone_fulfilled v w :
  resume InConnectMicrophone (Normal v) w
  = (Normal None,
     mkWorld (set_audioGraphs (λ gs, gs ++ [mkGraph v 4096 1 1 true true true]) (browser w))
             (liveVideoManager w) (liveScreenManager w)
             (LiveAudioInputManager.set_stream v (liveAudioInputManager w))).
Proof.
  unfold resume, bind, on_audio, zoom. by rewrite audio_resume_fulfilled.
Qed.

Lemma resume_rejected f e w :
  resume f (Throw e) w
  = (Throw e,
     match rejection_message f with
     | Some m => with_browser (emit (ConsoleError m e) (browser w)) w
     | None => w
     end).
Proof. by destruct f, w. Qed.

Lemma resume_update_fulfilled f v w :
  rejection_message f = None → resume f (Normal v) w = (Normal None, w).
Proof. by destruct f, w. Qed.

(** ** C5: start, then stop *)

#[local] Arguments getTracks : simpl never.

Lemma step_settle p o w : step (PromiseSettles p o) w = (settle p o w).2.
Proof. done. Qed.

Lemma step_StartWebcam d w :
  step (StartWebcam d) w
  = with_browser (request_media (UserMediaVideo (device_constraint d)) InStartWebcam
                    (browser w)).2 w.
Proof. by destruct w. Qed.

Lemma step_StartCapture w :
  step StartCapture w
  = with_browser (request_media DisplayMediaVideo InStartCapture (browser w)).2 w.
Proof. by destruct w. Qed.

Lemma step_ConnectMicrophone d w :
  step (ConnectMicrophone d) w
  = with_browser (request_media (UserMediaAudio (device_constraint d)) InConnectMicrophone
                    (browser w)).2 w.
Proof. by destruct w. Qed.

Ltac settle_fresh :=
  rewrite step_settle;
  erewrite settle_awaiting by (cbn; apply list_lookup_middle; reflexivity);
  cbn [resume_stack];
  rewrite ?resume_startWebcam_fulfilled, ?resume_startCapture_fulfilled,
    ?resume_connectMicrophone_fulfilled, ?resume_rejected.

Lemma camera_start_stop w deviceId n :
  let p := length (promises (browser w)) in
  let w' := run [StartWebcam deviceId; PromiseSettles p (Granted n); StopWebcam] w in
  streams (browser w') = streams (browser w) ++ [mkStream Camera (replicate n Ended)]
  ∧ srcObject (video (browser w')) = None
  ∧ LiveVideoManager.stream (liveVideoManager w') = None.
Proof.
  destruct w as [[ss ps v c fq g lg] [s cb] sm am].
  cbn [run foldl browser promises]. rewrite step_StartWebcam.
  settle_fresh. cbn.
  split; [|done].
  rewrite alter_last. unfold end_tracks; cbn. by rewrite fmap_replicate.
Qed.

Lemma screen_start_stop w n :
  let p := length (promises (browser w)) in
  let w' := run [StartCapture; PromiseSettles p (Granted n); StopCapture] w in
  streams (browser w') = streams (browser w) ++ [mkStream Screen (replicate n Ended)]
  ∧ srcObject (video (browser w')) = None
  ∧ LiveScreenManager.stream (liveScreenManager w') = None.
Proof.
  destruct w as [[ss ps v c fq g lg] vm [s cb] am].
  cbn [run foldl browser promises]. rewrite step_StartCapture.
  settle_fresh. cbn.
  split; [|done].
  rewrite alter_last. unfold end_tracks; cbn. by rewrite fmap_replicate.
Qed.

Lemma microphone_start_stop w deviceId n :
  let p := length (promises (browser w)) in
  let w' := run [ConnectMicrophone deviceId; PromiseSettles p (Granted n);
                 DisconnectMicrophone] w in
  streams (browser w') = streams (browser w) ++ [mkStream Microphone (replicate n Ended)]
  ∧ LiveAudioInputManager.stream (liveAudioInputManager w') = None.
Proof.
  destruct w as [[ss ps v c fq g lg] vm sm [s cb]].
  cbn [run foldl browser promises]. rewrite step_ConnectMicrophone.
  settle_fresh. cbn.
  split; [|done].
  rewrite alter_last. unfold end_tracks; cbn. by rewrite fmap_replicate.
Qed.

(** C5.  In a state with no live track, for every device identifier
    (or none) and every stream the platform grants for it, a start that
    is followed by a stop as soon as it has completed leaves no live
    track, nothing bound to the display and a null stream handle.  This
    holds for the camera and screen managers, and without the display
    part for the microphone manager, which has no display. *)
Theorem start_stop_leaves_nothing_live (w : World) (deviceId : option string) (n : nat) :
  no_live_track (browser w) →
  let p := length (promises (browser w)) in
  let cam := run [StartWebcam deviceId; PromiseSettles p (Granted n); StopWebcam] w in
  let scr := run [StartCapture; PromiseSettles p (Granted n); StopCapture] w in
  let mic := run [ConnectMicrophone deviceId; PromiseSettles p (Granted n);
                  DisconnectMicrophone] w in
  (no_live_track (browser cam)
   ∧ srcObject (video (browser cam)) = None
   ∧ LiveVideoManager.stream (liveVideoManager cam) = None)
  ∧ (no_live_track (browser scr)
     ∧ srcObject (video (browser scr)) = None
     ∧ LiveScreenManager.stream (liveScreenManager scr) = None)
  ∧ (no_live_track (browser mic)
     ∧ LiveAudioInputManager.stream (liveAudioInputManager mic) = None).
Proof.
  intros H p cam scr mic.
  destruct (camera_start_stop w deviceId n) as (Ec & ? & ?).
  destruct (screen_start_stop w n) as (Es & ? & ?).
  destruct (microphone_start_stop w deviceId n) as (Em & ?).
  fold p in Ec, Es, Em. fold cam in Ec. fold scr in Es. fold mic in Em.
  unfold no_live_track. rewrite Ec, Es, Em.
  repeat split; try done;
    apply Forall_app; (split; [exact H|]);
    apply Forall_singleton, live_tracks_ended.
Qed.

Lemma start_stop_leaves_nothing_live_witness :
  let cam := run [StartWebcam (Some "front"); PromiseSettles 0 (Granted 1); StopWebcam]
                 constructed in
  no_live_track (browser constructed)
  ∧ no_live_track (browser cam)
  ∧ srcObject (video (browser cam)) = None
  ∧ LiveVideoManager.stream (liveVideoManager cam) = None.
Proof.
  assert (H : no_live_track (browser constructed)) by (by vm_compute).
  split; [exact H|].
  exact (proj1 (start_stop_leaves_nothing_live constructed (Some "front") 1 H)).
Defined.

(** ** Driving the sampler *)

Lemma tick_eq r w :
  tick r w
  = with_browser
      (let b := browser w in
       let v := reported r (video b) in
       let q := frameRequests b in
       mkBrowser (streams b) (promises b) v
         (match q with [] => canvas b | _ => sampled_canvas v (canvas b) end)
         q (audioGraphs b)
         (log b ++ flat_map (λ l, sample_effects (loop_callback l w) v) q)) w.
Proof.
  destruct r as [[vw vh] pic]. unfold tick. cbn [run foldl].
  change (step AnimationFrame ?x) with (animation_frame x).2.
  rewrite animation_frame_eq. by destruct w as [[ss ps v c fq g lg] vm sm am].
Qed.

Lemma tick_completions_eq r w :
  tick_completions r w = replicate (length (frameRequests (browser w))) (Normal ()).
Proof.
  destruct r as [[vw vh] pic]. unfold tick_completions.
  rewrite animation_frame_eq. by destruct w as [[ss ps v c fq g lg] vm sm am].
Qed.

Lemma tick_frameRequests r w :
  frameRequests (browser (tick r w)) = frameRequests (browser w).
Proof. rewrite tick_eq. by destruct w. Qed.

Lemma tick_loop_callback r l w : loop_callback l (tick r w) = loop_callback l w.
Proof. rewrite tick_eq. by destruct w, l. Qed.

Lemma tick_log r w :
  log (browser (tick r w))
  = log (browser w)
    ++ flat_map (λ l, sample_effects (loop_callback l w) (reported r (video (browser w))))
                (frameRequests (browser w)).
Proof. rewrite tick_eq. by destruct w. Qed.

Lemma ready_reported vw vh pic v :
  ready (reported (vw, vh, pic) v) = (0 <? vw)%N && (0 <? vh)%N.
Proof. done. Qed.

Lemma not_ready_zero vw vh pic v :
  vw = 0%N ∨ vh = 0%N → ready (reported (vw, vh, pic) v) = false.
Proof.
  rewrite ready_reported. intros [-> | ->]; [done|]. by rewrite andb_false_r.
Qed.

Lemma ready_positive vw vh pic v :
  (0 < vw)%N ∧ (0 < vh)%N → ready (reported (vw, vh, pic) v) = true.
Proof.
  rewrite ready_reported. intros [Hw Hh].
  apply N.ltb_lt in Hw, Hh. by rewrite Hw, Hh.
Qed.

Lemma flat_map_nil_all {A B} (f : A → list B) (l : list A) :
  (∀ x, f x = []) → flat_map f l = [].
Proof. intros H. induction l as [|x l IH]; [done|]. cbn. by rewrite H, IH. Qed.

Lemma sample_effects_not_ready cb v : ready v = false → sample_effects cb v = [].
Proof. unfold sample_effects. by intros ->. Qed.

(** A tick on which a dimension is zero is invisible: nothing is drawn,
    encoded or delivered, whatever loops and receivers there are. *)
Lemma tick_not_ready vw vh pic w :
  vw = 0%N ∨ vh = 0%N →
  log (browser (tick (vw, vh, pic) w)) = log (browser w)
  ∧ canvas (browser (tick (vw, vh, pic) w)) = canvas (browser w).
Proof.
  intros Hz. pose proof (not_ready_zero vw vh pic (video (browser w)) Hz) as Hr.
  rewrite tick_eq. destruct w as [[ss ps v c fq g lg] vm sm am]. cbn in *.
  split.
  - rewrite flat_map_nil_all; [by rewrite app_nil_r|].
    intros l. by apply sample_effects_not_ready.
  - unfold sampled_canvas. rewrite Hr. by destruct fq.
Qed.

(** ** C3: the sampler waits for a negotiated size *)

(** C3.  Whatever loops and receivers there are, a tick on which the
    reported width or height is zero draws, encodes and delivers nothing.
    With one sampler running and a receiver registered, the tick sequence
    not-ready, not-ready, ready leaves the log untouched after the first
    and after the second tick and adds exactly one drawn, encoded and
    delivered frame on the third. *)
Theorem sampler_waits_for_dimensions (w : World) (l : Loop) (cb : Callback)
    (vw1 vh1 vw2 vh2 vw3 vh3 : N) (p1 p2 p3 : Picture) :
  frameRequests (browser w) = [l] →
  loop_callback l w = Some cb →
  vw1 = 0%N ∨ vh1 = 0%N →
  vw2 = 0%N ∨ vh2 = 0%N →
  (0 < vw3)%N ∧ (0 < vh3)%N →
  let t1 := tick (vw1, vh1, p1) w in
  let t2 := tick (vw2, vh2, p2) t1 in
  let t3 := tick (vw3, vh3, p3) t2 in
  let frame := ImageData "image/jpeg" vw3 vh3 (Some p3) in
  (∀ w0 vw vh pic, vw = 0%N ∨ vh = 0%N →
     log (browser (tick (vw, vh, pic) w0)) = log (browser w0))
  ∧ log (browser t1) = log (browser w)
  ∧ log (browser t2) = log (browser w)
  ∧ log (browser t3)
    = log (browser w) ++ [Drawn p3 vw3 vh3; Encoded frame; FrameDelivered cb frame]
  ∧ frames_encoded (log (browser t3)) = frames_encoded (log (browser w)) ++ [frame]
  ∧ frames_delivered (log (browser t3)) = frames_delivered (log (browser w)) ++ [(cb, frame)].
Proof.
  intros Hq Hcb H1 H2 H3 t1 t2 t3 frame.
  assert (E1 : log (browser t1) = log (browser w)) by by apply tick_not_ready.
  assert (E2 : log (browser t2) = log (browser w)).
  { unfold t2. by rewrite (proj1 (tick_not_ready _ _ _ _ H2)). }
  assert (E3 : log (browser t3)
               = log (browser w) ++ [Drawn p3 vw3 vh3; Encoded frame; FrameDelivered cb frame]).
  { unfold t3. rewrite tick_log, E2. f_equal.
    unfold t2, t1. rewrite !tick_frameRequests, Hq. cbn [flat_map].
    rewrite !tick_loop_callback, Hcb, app_nil_r.
    unfold sample_effects. by rewrite (ready_positive _ _ _ _ H3). }
  split; [intros; by apply tick_not_ready|].
  repeat split; try done.
  - rewrite E3. unfold frames_encoded. by rewrite omap_app.
  - rewrite E3. unfold frames_delivered. by rewrite omap_app.
Qed.

Lemma sampler_waits_for_dimensions_witness :
  let w := run [CameraBtnClick; PromiseSettles 0 (Granted 1)] page_loaded in
  let t3 := tick (640%N, 480%N, 7) (tick (640%N, 0%N, 6) (tick (0%N, 0%N, 5) w)) in
  let frame := ImageData "image/jpeg" 640 480 (Some 7) in
  frames_delivered (log (browser t3))
  = frames_delivered (log (browser w)) ++ [(sendImageFromCamera, frame)].
Proof.
  refine (proj2 (proj2 (proj2 (proj2 (proj2
    (sampler_waits_for_dimensions
       (run [CameraBtnClick; PromiseSettles 0 (Granted 1)] page_loaded)
       CameraLoop sendImageFromCamera 0 0 640 0 640 480 5 6 7 _ _ _ _ _)))))).
  - reflexivity.
  - reflexivity.
  - left; reflexivity.
  - right; reflexivity.
  - split; reflexivity.
Defined.

(** ** C7: a cleared callback *)

Lemma drive_cons r rs w : drive (r :: rs) w = drive rs (tick r w).
Proof. done. Qed.

Lemma tick_callbacks_cleared r w :
  Forall (λ l, loop_callback l w = None) (frameRequests (browser w)) →
  Forall (λ l, loop_callback l (tick r w) = None) (frameRequests (browser (tick r w))).
Proof.
  intros H. rewrite tick_frameRequests.
  eapply Forall_impl; [|exact H]. intros l Hl. by rewrite tick_loop_callback.
Qed.

Lemma cleared_effects_silent (f : Loop → option Callback) v q :
  Forall (λ l, f l = None) q →
  frames_delivered (flat_map (λ l, sample_effects (f l) v) q) = []
  ∧ frames_encoded (flat_map (λ l, sample_effects (f l) v) q) = [].
Proof.
  induction 1 as [|l q Hl _ [IH1 IH2]]; [done|].
  cbn [flat_map]. unfold frames_delivered, frames_encoded in *.
  rewrite !omap_app, IH1, IH2, Hl.
  unfold sample_effects. by destruct (ready v).
Qed.

(** C7.  With the callback of every running sampler cleared, any number
    of ticks, whatever the element reports on each, delivers and encodes
    nothing.  In every state, with or without a callback and whether or
    not a frame is produced, every callback of a tick completes normally
    and the loops registered before the tick are registered again after
    it. *)
Theorem cleared_callback_drops_frames (w : World) (reports : list (N * N * Picture)) :
  Forall (λ l, loop_callback l w = None) (frameRequests (browser w)) →
  let w' := drive reports w in
  frames_delivered (log (browser w')) = frames_delivered (log (browser w))
  ∧ frames_encoded (log (browser w')) = frames_encoded (log (browser w))
  ∧ frameRequests (browser w') = frameRequests (browser w)
  ∧ (∀ w0 r, Forall (λ c, c = Normal ()) (tick_completions r w0)
             ∧ frameRequests (browser (tick r w0)) = frameRequests (browser w0)).
Proof.
  intros H w'. subst w'.
  assert (Hall : ∀ w0 r, Forall (λ c, c = Normal ()) (tick_completions r w0)
                         ∧ frameRequests (browser (tick r w0)) = frameRequests (browser w0)).
  { intros w0 r. split; [|apply tick_frameRequests].
    rewrite tick_completions_eq. by apply Forall_replicate. }
  revert w H. induction reports as [|r rs IH]; intros w H; [done|].
  rewrite drive_cons.
  destruct (IH (tick r w) (tick_callbacks_cleared r w H)) as (E1 & E2 & E3 & _).
  rewrite E1, E2, E3, tick_frameRequests, tick_log.
  destruct (cleared_effects_silent (λ l, loop_callback l w)
              (reported r (video (browser w))) _ H) as [S1 S2].
  unfold frames_delivered, frames_encoded in *.
  rewrite !omap_app, S1, S2, !app_nil_r. done.
Qed.

Lemma cleared_callback_drops_frames_witness :
  let w := run [CameraBtnClick; PromiseSettles 0 (Granted 1); AssignVideoOnNewFrame None]
               page_loaded in
  let w' := drive [(640%N, 480%N, 1); (0%N, 0%N, 2); (1280%N, 720%N, 3)] w in
  Forall (λ l, loop_callback l w = None) (frameRequests (browser w))
  ∧ frames_delivered (log (browser w')) = frames_delivered (log (browser w))
  ∧ frameRequests (browser w') = [CameraLoop].
Proof.
  assert (H : Forall (λ l, loop_callback l
                (run [CameraBtnClick; PromiseSettles 0 (Granted 1); AssignVideoOnNewFrame None]
                     page_loaded) = None)
              (frameRequests (browser
                (run [CameraBtnClick; PromiseSettles 0 (Granted 1); AssignVideoOnNewFrame None]
                     page_loaded)))).
  { vm_compute. repeat constructor. }
  pose proof (cleared_callback_drops_frames _
                [(640%N, 480%N, 1); (0%N, 0%N, 2); (1280%N, 720%N, 3)] H) as (E1 & _ & E3 & _).
  split; [exact H|]. split; [exact E1|]. exact E3.
Defined.

(** ** C10: the camera and screen managers sample and stop alike *)

Lemma mirror_loop_callback l w : loop_callback (other l) (mirror w) = loop_callback l w.
Proof. by destruct l, w as [b [] [] a]. Qed.

Lemma flat_map_mirror v q w :
  flat_map (λ l, sample_effects (loop_callback l (mirror w)) v) (other <$> q)
  = flat_map (λ l, sample_effects (loop_callback l w) v) q.
Proof.
  induction q as [|l q IH]; [done|].
  cbn. by rewrite IH, mirror_loop_callback.
Qed.

Lemma captureFrames_mirror w :
  on_screen LiveScreenManager.captureFrames (mirror w)
  = (Normal (), mirror (exec (on_video LiveVideoManager.captureFrames) w)).
Proof.
  unfold exec, on_screen, on_video, zoom,
    LiveScreenManager.captureFrames, LiveVideoManager.captureFrames.
  rewrite screen_captureFrame_eq, video_captureFrame_eq.
  destruct w as [[ss ps v c fq g lg] [s cb] sm am]. unfold mirror, after_sample. cbn.
  unfold set_frameRequests; cbn. by rewrite fmap_app.
Qed.

Lemma tick_mirror r w : tick r (mirror w) = mirror (tick r w).
Proof.
  rewrite !tick_eq. unfold with_browser.
  cbn [browser liveVideoManager liveScreenManager liveAudioInputManager mirror
       set_frameRequests streams promises video canvas frameRequests audioGraphs log].
  rewrite (flat_map_mirror _ (frameRequests (browser w)) w).
  f_equal. f_equal. by destruct (frameRequests (browser w)).
Qed.

Lemma drive_mirror rs w : drive rs (mirror w) = mirror (drive rs w).
Proof.
  revert w. induction rs as [|r rs IH]; intros w; [done|].
  by rewrite !drive_cons, tick_mirror, IH.
Qed.

Lemma stop_mirror w :
  on_screen LiveScreenManager.stopCapture (mirror w)
  = (Normal (), mirror (exec (on_video LiveVideoManager.stopWebcam) w)).
Proof.
  destruct w as [[ss ps v c fq g lg] [[s|] cb] sm am]; [|done].
  done.
Qed.

(** C10.  Take any page state and exchange the two video managers.  Then
    the screen manager's [captureFrames] followed by any tick sequence
    ends in the exchanged image of what the camera manager's
    [captureFrames] followed by the same ticks ends in, so the two runs
    show the same effects (draws, encodings, deliveries) and the same
    canvas; and [stopCapture] makes the transition [stopWebcam] makes. *)
Theorem camera_and_screen_agree (w : World) (reports : list (N * N * Picture)) :
  let cam := drive reports (exec (on_video LiveVideoManager.captureFrames) w) in
  let scr := drive reports (exec (on_screen LiveScreenManager.captureFrames) (mirror w)) in
  scr = mirror cam
  ∧ log (browser scr) = log (browser cam)
  ∧ canvas (browser scr) = canvas (browser cam)
  ∧ on_screen LiveScreenManager.stopCapture (mirror w)
    = (result (on_video LiveVideoManager.stopWebcam) w,
       mirror (exec (on_video LiveVideoManager.stopWebcam) w)).
Proof.
  intros cam scr.
  assert (E : scr = mirror cam).
  { unfold scr, cam, exec at 1. rewrite captureFrames_mirror. cbn [snd].
    by rewrite drive_mirror. }
  rewrite E. repeat split; try done.
  rewrite stop_mirror. f_equal.
  by destruct w as [b [[s|] cb] sm am].
Qed.

(** ** C8: audio chunks *)

Lemma with_browser_browser b w : browser (with_browser b w) = b.
Proof. done. Qed.

Lemma with_browser_twice b b' w : with_browser b (with_browser b' w) = with_browser b w.
Proof. done. Qed.

Lemma with_browser_id w : with_browser (browser w) w = w.
Proof. by destruct w. Qed.

Lemma audio_process_delivers w g graph cb c data :
  audioGraphs (browser w) !! g = Some graph →
  onaudioprocess graph = true →
  LiveAudioInputManager.onNewAudioRecordingChunk (liveAudioInputManager w) = Some cb →
  c !! 0 = Some data →
  audio_process g c w = (Normal (), with_browser (emit (ChunkDelivered cb data) (browser w)) w).
Proof.
  intros Hg Hh Hcb Hc. unfold audio_process. rewrite Hg, Hh.
  destruct w as [b vm sm [s cb']]. cbn in Hcb. subst cb'.
  unfold on_audio, zoom, LiveAudioInputManager.onaudioprocess_handler, bind, this_get, gets,
    LiveAudioInputManager.getChannelData.
  cbn. by rewrite Hc.
Qed.

Lemma run_cons i inputs w : run (i :: inputs) w = run inputs (step i w).
Proof. done. Qed.

Lemma emits_emit e es b : emits es (emit e b) = emits (e :: es) b.
Proof. unfold emits, emit; cbn. by rewrite <- app_assoc. Qed.

Lemma emits_nil b : emits [] b = b.
Proof. destruct b. unfold emits; cbn. by rewrite app_nil_r. Qed.

Lemma run_audio_process w g graph cb chunks :
  audioGraphs (browser w) !! g = Some graph →
  onaudioprocess graph = true →
  LiveAudioInputManager.onNewAudioRecordingChunk (liveAudioInputManager w) = Some cb →
  Forall (λ c, is_Some (c !! 0)) chunks →
  run (AudioProcess g <$> chunks) w
  = with_browser (emits ((λ c, ChunkDelivered cb (channel 0 c)) <$> chunks) (browser w)) w.
Proof.
  intros Hg Hh Hcb Hall. revert w Hg Hcb.
  induction Hall as [|c chunks [data Hc] _ IH]; intros w Hg Hcb.
  - cbn. by rewrite emits_nil, with_browser_id.
  - rewrite fmap_cons, run_cons.
    change (step (AudioProcess g c) w) with (audio_process g c w).2.
    rewrite (audio_process_delivers w g graph cb c data) by done. cbn [snd].
    rewrite IH by (by destruct w).
    rewrite with_browser_twice, with_browser_browser, emits_emit.
    rewrite fmap_cons. replace (channel 0 c) with data; [done|].
    unfold channel. by rewrite Hc.
Qed.

(** C8.  After the microphone has been connected with a receiver
    registered, the processor of the new graph is the one created with
    buffer size 4096 and one input channel; feeding it any sequence of
    buffers of that shape adds to the log exactly one delivery per
    buffer, in the order fed, each carrying the samples of channel 0 as
    they came: 4096 samples of a one-channel buffer. *)
Theorem audio_chunks_in_order (w : World) (deviceId : option string) (n : nat)
    (cb : Callback) (chunks : list AudioBuffer) :
  LiveAudioInputManager.onNewAudioRecordingChunk (liveAudioInputManager w) = Some cb →
  let p := length (promises (browser w)) in
  let g := length (audioGraphs (browser w)) in
  let w1 := run [ConnectMicrophone deviceId; PromiseSettles p (Granted n)] w in
  let graph := mkGraph (Some (length (streams (browser w)))) 4096 1 1 true true true in
  Forall (chunk_fits graph) chunks →
  audioGraphs (browser w1) !! g = Some graph
  ∧ log (browser (run (AudioProcess g <$> chunks) w1))
    = log (browser w1) ++ ((λ c, ChunkDelivered cb (channel 0 c)) <$> chunks)
  ∧ chunks_delivered (log (browser (run (AudioProcess g <$> chunks) w1)))
    = chunks_delivered (log (browser w1)) ++ ((λ c, (cb, channel 0 c)) <$> chunks)
  ∧ Forall (λ c, c = [channel 0 c] ∧ length (channel 0 c) = 4096) chunks.
Proof.
  intros Hcb p g w1 graph Hfit.
  assert (Hshape : Forall (λ c, c = [channel 0 c] ∧ length (channel 0 c) = 4096) chunks).
  { eapply Forall_impl; [|exact Hfit]. intros c [Hlen Hall].
    unfold graph in Hlen, Hall. cbn in Hlen, Hall.
    destruct c as [|data [|? ?]]; try done.
    inversion_clear Hall as [|?? Hd _]. by split. }
  assert (Hg : audioGraphs (browser w1) !! g = Some graph).
  { unfold w1, g, p, graph. destruct w as [[ss ps v c fq gs lg] vm sm [s cb']].
    cbn [run foldl browser promises]. rewrite step_ConnectMicrophone.
    settle_fresh. cbn. by apply list_lookup_middle. }
  assert (Hcb1 : LiveAudioInputManager.onNewAudioRecordingChunk (liveAudioInputManager w1)
                 = Some cb).
  { unfold w1, p. destruct w as [[ss ps v c fq gs lg] vm sm [s cb']].
    cbn [run foldl browser promises]. rewrite step_ConnectMicrophone.
    settle_fresh. exact Hcb. }
  assert (E : log (browser (run (AudioProcess g <$> chunks) w1))
              = log (browser w1) ++ ((λ c, ChunkDelivered cb (channel 0 c)) <$> chunks)).
  { rewrite (run_audio_process w1 g graph cb chunks Hg eq_refl Hcb1); [done|].
    eapply Forall_impl; [|exact Hshape]. intros c [-> _]. by eexists. }
  repeat split; try done.
  rewrite E. unfold chunks_delivered. rewrite omap_app. f_equal.
  clear. induction chunks as [|c chunks IH]; [done|]. cbn. by rewrite IH.
Qed.

Lemma audio_chunks_in_order_witness :
  let w1 := run [ConnectMicrophone None; PromiseSettles 0 (Granted 1)] page_loaded in
  let c1 := [replicate 4096 1%N] in
  let c2 := [replicate 4096 2%N] in
  let c3 := [replicate 4096 3%N] in
  chunks_delivered (log (browser (run (AudioProcess 0 <$> [c1; c2; c3]) w1)))
  = chunks_delivered (log (browser w1))
    ++ [(sendAudio, replicate 4096 1%N); (sendAudio, replicate 4096 2%N);
        (sendAudio, replicate 4096 3%N)].
Proof.
  refine (proj1 (proj2 (proj2
    (audio_chunks_in_order page_loaded None 1 sendAudio
       [[replicate 4096 1%N]; [replicate 4096 2%N]; [replicate 4096 3%N]] _ _)))).
  - reflexivity.
  - repeat constructor; by rewrite length_replicate.
Defined.

(** ** C2: switching the device *)

Lemma live_tracks_all_ended (ms : MediaStream) : live_tracks (end_tracks ms) = 0.
Proof.
  unfold live_tracks, end_tracks; cbn [tracks].
  induction (tracks ms) as [|t ts IH]; [done|].
  rewrite fmap_cons, filter_cons_False; [exact IH|]. by intros ?.
Qed.

(** After [stop_all_tracks], the stream the handle refers to has no live
    track. *)
Lemma handle_dead_after_stop s b : handle_live (Some s) (stop_all_tracks s b) = false.
Proof.
  unfold handle_live. rewrite stop_all_tracks_streams, list_lookup_alter_eq.
  destruct (_ !! _) as [ms|]; cbn -[live_tracks]; [|done].
  rewrite live_tracks_all_ended. apply bool_decide_eq_false_2. lia.
Qed.

Ltac unfold_browser :=
  unfold set_promises, set_streams, set_video, set_canvas, set_frameRequests,
    set_audioGraphs, await_in, emit, emits, request_media, assign_srcObject,
    stop_all_tracks, play, new_stream;
  cbn [streams promises video canvas frameRequests audioGraphs log fst snd].

Ltac settle_last :=
  unfold settle, exec; cbn -[resume resume_stack]; unfold_browser;
  rewrite ?alter_last; rewrite !lookup_last; cbn -[resume resume_stack];
  unfold_browser; rewrite ?alter_last; rewrite !insert_last; cbn [resume_stack].

Section Switch.
Variables (w : World) (deviceId : string).

Let p : Promise := length (promises (browser w)).

Lemma camera_switch_call :
  result (camera_switch deviceId) w = Normal p
  ∧ result (camera_stop_start deviceId) w = Normal p
  ∧ exec (camera_switch deviceId) w
    = with_browser (await_in InUpdateWebcamDevice p (browser (exec (camera_stop_start deviceId) w)))
                   (exec (camera_stop_start deviceId) w).
Proof using Type.
  unfold p. by destruct w as [[ss ps v c fq g lg] [[s|] cb] sm am].
Qed.

Lemma microphone_switch_call :
  result (microphone_switch deviceId) w = Normal p
  ∧ result (microphone_stop_start deviceId) w = Normal p
  ∧ exec (microphone_switch deviceId) w
    = with_browser (await_in InUpdateMicrophoneDevice p
                      (browser (exec (microphone_stop_start deviceId) w)))
                   (exec (microphone_stop_start deviceId) w).
Proof using Type.
  unfold p. by destruct w as [[ss ps v c fq g lg] vm sm [[s|] cb]].
Qed.

Lemma camera_switch_settles (o : Outcome) :
  settle p o (exec (camera_switch deviceId) w) = settle p o (exec (camera_stop_start deviceId) w).
Proof using Type.
  unfold p. destruct w as [[ss ps v c fq g lg] [[s|] cb] sm am];
    unfold camera_switch, camera_stop_start; settle_last;
    destruct o as [n|e];
    rewrite ?resume_startWebcam_fulfilled, ?resume_rejected; done.
Qed.

Lemma microphone_switch_settles (o : Outcome) :
  settle p o (exec (microphone_switch deviceId) w) = settle p o (exec (microphone_stop_start deviceId) w).
Proof using Type.
  unfold p. destruct w as [[ss ps v c fq g lg] vm sm [[s|] cb]];
    unfold microphone_switch, microphone_stop_start; settle_last;
    destruct o as [n|e];
    rewrite ?resume_connectMicrophone_fulfilled, ?resume_rejected; done.
Qed.

Lemma camera_switch_fails (e : JsError) :
  camera_owns_display w →
  let failed := settle p (Denied e) (exec (camera_switch deviceId) w) in
  failed.1 = Throw e
  ∧ LiveVideoManager.stream (liveVideoManager failed.2) = None
  ∧ srcObject (video (browser failed.2)) = None
  ∧ handle_live (LiveVideoManager.stream (liveVideoManager w)) (browser failed.2) = false
  ∧ length (streams (browser failed.2)) = length (streams (browser w))
  ∧ promises (browser failed.2) = promises (browser w) ++ [Settled]
  ∧ frameRequests (browser failed.2) = frameRequests (browser w).
Proof using Type.
  unfold p, camera_owns_display.
  destruct w as [[ss ps v c fq g lg] [[s|] cb] sm am]; intros Hown;
    unfold camera_switch; settle_last;
    rewrite !resume_rejected; cbn.
  - repeat split; try done.
    + apply (handle_dead_after_stop s (mkBrowser ss ps v c fq g lg)).
    + by rewrite length_alter.
  - destruct Hown as [Hown|[? Hown]]; [|done]. cbn in Hown. by repeat split.
Qed.

Lemma microphone_switch_fails (e : JsError) :
  let failed := settle p (Denied e) (exec (microphone_switch deviceId) w) in
  failed.1 = Throw e
  ∧ LiveAudioInputManager.stream (liveAudioInputManager failed.2) = None
  ∧ handle_live (LiveAudioInputManager.stream (liveAudioInputManager w)) (browser failed.2)
    = false
  ∧ length (streams (browser failed.2)) = length (streams (browser w))
  ∧ promises (browser failed.2) = promises (browser w) ++ [Settled]
  ∧ audioGraphs (browser failed.2) = audioGraphs (browser w).
Proof using Type.
  unfold p.
  destruct w as [[ss ps v c fq g lg] vm sm [[s|] cb]];
    unfold microphone_switch; settle_last;
    rewrite !resume_rejected; cbn.
  - repeat split; try done.
    + apply (handle_dead_after_stop s (mkBrowser ss ps v c fq g lg)).
    + by rewrite length_alter.
  - by repeat split.
Qed.
End Switch.

(** C2.  For every device identifier, in every state where no other
    component has bound the display: [updateWebcamDevice] returns the
    promise and reaches the state that [stopWebcam] followed by
    [startWebcam] returns and reaches, with the caller waiting on that
    promise in addition, and whatever way the platform settles the
    acquisition the two end with the same completion in the same state;
    likewise [updateMicrophoneDevice] and [disconnectMicrophone] followed
    by [connectMicrophone].  When the acquisition is rejected with [e],
    the caller's promise is rejected with [e], the stream handle is null,
    nothing is bound to the display, the stream held before has no live
    track, no stream object was created, no sampling loop or audio graph
    was added, and the only promise of the call is settled: nothing is
    retried. *)
Theorem switch_is_stop_then_start (w : World) (deviceId : string) (o : Outcome)
    (e : JsError) :
  camera_owns_display w →
  let p := length (promises (browser w)) in
  let failed := settle p (Denied e) (exec (camera_switch deviceId) w) in
  let mic_failed := settle p (Denied e) (exec (microphone_switch deviceId) w) in
  (result (camera_switch deviceId) w = Normal p
   ∧ result (camera_stop_start deviceId) w = Normal p
   ∧ exec (camera_switch deviceId) w
     = with_browser (await_in InUpdateWebcamDevice p
                       (browser (exec (camera_stop_start deviceId) w)))
                    (exec (camera_stop_start deviceId) w)
   ∧ settle p o (exec (camera_switch deviceId) w)
     = settle p o (exec (camera_stop_start deviceId) w))
  ∧ (result (microphone_switch deviceId) w = Normal p
     ∧ result (microphone_stop_start deviceId) w = Normal p
     ∧ exec (microphone_switch deviceId) w
       = with_browser (await_in InUpdateMicrophoneDevice p
                         (browser (exec (microphone_stop_start deviceId) w)))
                      (exec (microphone_stop_start deviceId) w)
     ∧ settle p o (exec (microphone_switch deviceId) w)
       = settle p o (exec (microphone_stop_start deviceId) w))
  ∧ (failed.1 = Throw e
     ∧ LiveVideoManager.stream (liveVideoManager failed.2) = None
     ∧ srcObject (video (browser failed.2)) = None
     ∧ handle_live (LiveVideoManager.stream (liveVideoManager w)) (browser failed.2) = false
     ∧ length (streams (browser failed.2)) = length (streams (browser w))
     ∧ promises (browser failed.2) = promises (browser w) ++ [Settled]
     ∧ frameRequests (browser failed.2) = frameRequests (browser w))
  ∧ (mic_failed.1 = Throw e
     ∧ LiveAudioInputManager.stream (liveAudioInputManager mic_failed.2) = None
     ∧ handle_live (LiveAudioInputManager.stream (liveAudioInputManager w))
         (browser mic_failed.2) = false
     ∧ length (streams (browser mic_failed.2)) = length (streams (browser w))
     ∧ promises (browser mic_failed.2) = promises (browser w) ++ [Settled]
     ∧ audioGraphs (browser mic_failed.2) = audioGraphs (browser w)).
Proof.
  intros Hown p failed mic_failed.
  destruct (camera_switch_call w deviceId) as (? & ? & ?).
  destruct (microphone_switch_call w deviceId) as (? & ? & ?).
  split; [repeat split; try done; apply camera_switch_settles|].
  split; [repeat split; try done; apply microphone_switch_settles|].
  split; [by apply camera_switch_fails | apply microphone_switch_fails].
Qed.

Lemma switch_is_stop_then_start_witness :
  let w := run [StartWebcam (Some "front"); PromiseSettles 0 (Granted 1)] constructed in
  let failed := settle 1 (Denied (DOMException "NotFoundError"))
                  (exec (camera_switch "rear") w) in
  camera_owns_display w
  ∧ failed.1 = Throw (DOMException "NotFoundError")
  ∧ LiveVideoManager.stream (liveVideoManager failed.2) = None
  ∧ srcObject (video (browser failed.2)) = None.
Proof.
  assert (H : camera_owns_display
                (run [StartWebcam (Some "front"); PromiseSettles 0 (Granted 1)] constructed)).
  { right. vm_compute. by eexists. }
  split; [exact H|].
  pose proof (switch_is_stop_then_start _ "rear" (Denied (DOMException "NotFoundError"))
                (DOMException "NotFoundError") H) as (_ & _ & (E1 & E2 & E3 & _) & _).
  split; [exact E1|]. split; [exact E2 | exact E3].
Defined.

(** The shared display can be bound by the screen manager: a camera
    switch that fails then leaves that binding alone, because
    [stopWebcam] touches the display only when the camera manager holds
    a stream. *)
Example failed_switch_leaves_screen_binding :
  let w := run [ScreenShareBtnClick; PromiseSettles 0 (Granted 1)] page_loaded in
  let failed := settle 1 (Denied (DOMException "NotAllowedError"))
                  (exec (camera_switch "rear") w) in
  ¬ camera_owns_display w
  ∧ LiveVideoManager.stream (liveVideoManager failed.2) = None
  ∧ srcObject (video (browser failed.2)) = Some 0.
Proof.
  cbv zeta. split; [|by vm_compute].
  intros [H|[x H]]; by vm_compute in H.
Qed.

(** ** C9: sampling loops accumulate *)

Lemma kinds_alter_stop s (ss : list MediaStream) :
  kind <$> alter end_tracks s ss = kind <$> ss.
Proof.
  revert s. induction ss as [|ms ss IH]; intros [|s]; cbn; try done.
  f_equal. apply IH.
Qed.

Lemma consistent_same b b' :
  promises b' = promises b →
  frameRequests b' = frameRequests b →
  kind <$> streams b' = kind <$> streams b →
  consistent b → consistent b'.
Proof.
  unfold consistent, loops_of, acquired. by intros -> -> ->.
Qed.

Lemma consistent_request b b' r f :
  promises b' = promises b ++ [Awaiting r f] →
  stack_fits r f →
  frameRequests b' = frameRequests b →
  kind <$> streams b' = kind <$> streams b →
  consistent b → consistent b'.
Proof.
  unfold consistent, loops_of, acquired. intros -> Hf -> -> (Hp & ? & ?).
  split; [|done]. apply Forall_app. split; [done|]. by apply Forall_singleton.
Qed.

Lemma consistent_settled b b' p loops kinds :
  promises b' = <[p := Settled]> (promises b) →
  frameRequests b' = frameRequests b ++ loops →
  kind <$> streams b' = (kind <$> streams b) ++ kinds →
  length (filter (λ l, l = CameraLoop) loops) = length (filter (λ k, k = Camera) kinds) →
  length (filter (λ l, l = ScreenLoop) loops) = length (filter (λ k, k = Screen) kinds) →
  consistent b → consistent b'.
Proof.
  unfold consistent, loops_of, acquired. intros -> -> -> Hc Hs (Hp & Ec & Es).
  rewrite !list.filter_app, !length_app, Hc, Hs, Ec, Es.
  split; [|done]. by apply Forall_insert.
Qed.

#[local] Arguments consistent : simpl never.

Lemma settle_consistent p o w :
  consistent (browser w) → consistent (browser (settle p o w).2).
Proof.
  intros H.
  destruct (promises (browser w) !! p) as [[r stack|]|] eqn:E;
    [|rewrite settle_not_awaiting by (intros ??; congruence); exact H ..].
  pose proof (Forall_lookup_1 _ _ _ _ (proj1 H) E) as Hfit. cbn in Hfit.
  rewrite (settle_awaiting _ _ _ _ _ E).
  destruct w as [b vm sm am]. cbn [browser] in *.
  destruct r as [c|c|]; cbn in Hfit; [destruct Hfit as [-> | ->] | destruct Hfit as [-> | ->] | subst stack];
    destruct o as [n|e]; cbn [resume_stack];
    rewrite ?resume_startWebcam_fulfilled, ?resume_startCapture_fulfilled,
      ?resume_connectMicrophone_fulfilled, ?resume_rejected,
      ?resume_update_fulfilled by done;
    cbn [browser with_browser rejection_message fst snd];
    (eapply (consistent_settled b _ p); [| | | | |exact H]; cbn; try reflexivity).
  all: try (by rewrite fmap_app).
  all: try (by rewrite app_nil_r).
  all: reflexivity.
Qed.

Ltac consistent_by H :=
  first
    [ exact H
    | eapply consistent_same; [| | |exact H]; cbn;
      rewrite ?kinds_alter_stop; reflexivity
    | eapply consistent_request; [| | | |exact H]; cbn;
      rewrite ?alter_last, ?kinds_alter_stop; try reflexivity;
      cbn; auto ].

Lemma step_consistent i w :
  consistent (browser w) → consistent (browser (step i w)).
Proof.
  intros H. destruct i;
    try solve [destruct w as [b [[?|] ?] [[?|] ?] [[?|] ?]];
               cbn in H; cbn -[consistent]; unfold_browser; consistent_by H].
  - by apply settle_consistent.
  - change (step AnimationFrame w) with (animation_frame w).2.
    rewrite animation_frame_eq. destruct w as [b vm sm am]. cbn in *.
    by eapply consistent_same; [| | |exact H].
  - unfold step, exec, audio_process.
    destruct (audioGraphs (browser w) !! g) as [graph|]; [|exact H].
    destruct (onaudioprocess graph); [|exact H].
    destruct w as [b vm sm [s [cb|]]]; [|exact H].
    unfold on_audio, zoom, LiveAudioInputManager.onaudioprocess_handler, bind, this_get, gets,
      LiveAudioInputManager.getChannelData.
    cbn. destruct (inputBuffer !! 0); exact H.
Qed.

Lemma run_consistent inputs w :
  consistent (browser w) → consistent (browser (run inputs w)).
Proof.
  revert w. induction inputs as [|i inputs IH]; intros w H; [done|].
  rewrite run_cons. by apply IH, step_consistent.
Qed.

Lemma empty_browser_consistent : consistent empty_browser.
Proof. by repeat split. Qed.

(** No input takes a registered loop away. *)
Lemma resume_keeps_loops f c w :
  ∃ added, frameRequests (browser (resume f c w).2) = frameRequests (browser w) ++ added.
Proof.
  destruct c as [v|e].
  - destruct f;
      rewrite ?resume_startWebcam_fulfilled, ?resume_startCapture_fulfilled,
        ?resume_connectMicrophone_fulfilled, ?resume_update_fulfilled by done;
      cbn; first [by eexists | exists []; by rewrite app_nil_r].
  - rewrite resume_rejected. exists []. rewrite app_nil_r.
    by destruct (rejection_message f).
Qed.

Lemma resume_stack_keeps_loops stack c w :
  ∃ added,
    frameRequests (browser (resume_stack stack c w).2) = frameRequests (browser w) ++ added.
Proof.
  revert c w. induction stack as [|f stack IH]; intros c w.
  - exists []. by rewrite app_nil_r.
  - cbn [resume_stack]. destruct (resume_keeps_loops f c w) as [a1 E1].
    destruct (resume f c w) as [c' w']. cbn [snd] in E1.
    destruct (IH c' w') as [a2 E2]. exists (a1 ++ a2). by rewrite E2, E1, app_assoc.
Qed.

Lemma step_keeps_loops i w :
  ∃ added, frameRequests (browser (step i w)) = frameRequests (browser w) ++ added.
Proof.
  destruct i;
    try solve [exists []; rewrite app_nil_r;
               by destruct w as [b [[?|] ?] [[?|] ?] [[?|] ?]]].
  - rewrite step_settle. unfold settle.
    destruct (promises (browser w) !! p) as [[r stack|]|];
      [|exists []; by rewrite app_nil_r ..].
    destruct o as [n|e]; cbn;
      match goal with |- context [resume_stack ?s ?c ?w'] =>
        destruct (resume_stack_keeps_loops s c w') as [a E]; exists a; by rewrite E end.
  - exists []. rewrite app_nil_r.
    change (step AnimationFrame w) with (animation_frame w).2.
    rewrite animation_frame_eq. by destruct w.
  - exists []. rewrite app_nil_r. unfold step, exec, audio_process.
    destruct (audioGraphs (browser w) !! g) as [graph|]; [|done].
    destruct (onaudioprocess graph); [|done].
    destruct w as [b vm sm [s [cb|]]]; [|done].
    unfold on_audio, zoom, LiveAudioInputManager.onaudioprocess_handler, bind, this_get, gets,
      LiveAudioInputManager.getChannelData.
    cbn. by destruct (inputBuffer !! 0).
Qed.

(** A granted start, direct or through a switch, adds one loop. *)
Lemma start_adds_loop w deviceId n :
  let p := length (promises (browser w)) in
  frameRequests (browser (run [StartWebcam deviceId; PromiseSettles p (Granted n)] w))
  = frameRequests (browser w) ++ [CameraLoop].
Proof.
  destruct w as [[ss ps v c fq g lg] [s cb] sm am].
  cbn [run foldl browser promises]. rewrite step_StartWebcam.
  settle_fresh. done.
Qed.

Lemma switch_adds_loop w deviceId n :
  let p := length (promises (browser w)) in
  frameRequests (browser (run [UpdateWebcamDevice deviceId; PromiseSettles p (Granted n)] w))
  = frameRequests (browser w) ++ [CameraLoop].
Proof.
  destruct w as [[ss ps v c fq g lg] [[s|] cb] sm am];
    cbn [run foldl browser promises]; rewrite step_settle;
    unfold step; settle_last;
    rewrite resume_startWebcam_fulfilled, resume_update_fulfilled by done; done.
Qed.

Lemma screen_start_adds_loop w n :
  let p := length (promises (browser w)) in
  frameRequests (browser (run [StartCapture; PromiseSettles p (Granted n)] w))
  = frameRequests (browser w) ++ [ScreenLoop].
Proof.
  destruct w as [[ss ps v c fq g lg] vm [s cb] am].
  cbn [run foldl browser promises]. rewrite step_StartCapture.
  settle_fresh. done.
Qed.

Lemma only_camera_loops (q : list Loop) :
  length (filter (λ l, l = ScreenLoop) q) = 0 →
  q = replicate (length (filter (λ l, l = CameraLoop) q)) CameraLoop.
Proof.
  induction q as [|[] q IH]; intros H; [done| |].
  - rewrite filter_cons_False in H by done. rewrite filter_cons_True by done.
    cbn. f_equal. by apply IH.
  - by rewrite filter_cons_True in H.
Qed.

Lemma flat_map_replicate {A B} (f : A → list B) (x : A) k :
  flat_map f (replicate k x) = concat (replicate k (f x)).
Proof. induction k as [|k IH]; [done|]. cbn. by rewrite IH. Qed.

Lemma frames_delivered_concat cb d (es : list Effect) k :
  frames_delivered es = [(cb, d)] →
  frames_delivered (concat (replicate k es)) = replicate k (cb, d).
Proof.
  intros E. induction k as [|k IH]; [done|].
  cbn. unfold frames_delivered in *. by rewrite omap_app, E, IH.
Qed.

(** C9.  On a page started from an empty browser, after any inputs:
    a granted start, direct or through a device switch, adds one sampling
    loop of its manager; a tick leaves every registered loop registered;
    no input removes a registered loop; so the camera loops are as many
    as the camera streams acquired, and the screen loops as many as the
    screen streams.  When the screen manager has acquired none, a
    receiver is registered and the element reports a positive size, one
    tick draws, encodes and delivers the same frame once per camera
    stream acquired so far. *)
Theorem sampling_loops_accumulate (vm : LiveVideoManager.t) (sm : LiveScreenManager.t)
    (am : LiveAudioInputManager.t) (inputs : list Input) (r : N * N * Picture)
    (cb : Callback) :
  let w := run inputs (mkWorld empty_browser vm sm am) in
  let k := acquired Camera (browser w) in
  let v := reported r (video (browser w)) in
  let sample := [Drawn (picture v) (videoWidth v) (videoHeight v);
                 Encoded (jpeg_of v); FrameDelivered cb (jpeg_of v)] in
  acquired Screen (browser w) = 0 →
  LiveVideoManager.onNewFrame (liveVideoManager w) = Some cb →
  ready v = true →
  (∀ w0 deviceId n,
     let p := length (promises (browser w0)) in
     frameRequests (browser (run [StartWebcam deviceId; PromiseSettles p (Granted n)] w0))
     = frameRequests (browser w0) ++ [CameraLoop])
  ∧ (∀ w0 deviceId n,
       let p := length (promises (browser w0)) in
       frameRequests (browser (run [UpdateWebcamDevice deviceId; PromiseSettles p (Granted n)] w0))
       = frameRequests (browser w0) ++ [CameraLoop])
  ∧ (∀ w0 n,
       let p := length (promises (browser w0)) in
       frameRequests (browser (run [StartCapture; PromiseSettles p (Granted n)] w0))
       = frameRequests (browser w0) ++ [ScreenLoop])
  ∧ (∀ w0 r0, frameRequests (browser (tick r0 w0)) = frameRequests (browser w0))
  ∧ (∀ w0 i, ∃ added,
       frameRequests (browser (step i w0)) = frameRequests (browser w0) ++ added)
  ∧ loops_of CameraLoop (browser w) = k
  ∧ loops_of ScreenLoop (browser w) = acquired Screen (browser w)
  ∧ frameRequests (browser w) = replicate k CameraLoop
  ∧ frameRequests (browser (tick r w)) = replicate k CameraLoop
  ∧ log (browser (tick r w)) = log (browser w) ++ concat (replicate k sample)
  ∧ frames_delivered (log (browser (tick r w)))
    = frames_delivered (log (browser w)) ++ replicate k (cb, jpeg_of v).
Proof.
  intros w k v sample Hscreen Hcb Hready.
  destruct (run_consistent inputs (mkWorld empty_browser vm sm am) empty_browser_consistent)
    as (_ & Ec & Es).
  fold w in Ec, Es. fold k in Ec.
  assert (Eq : frameRequests (browser w) = replicate k CameraLoop).
  { rewrite <- Ec. apply only_camera_loops. unfold loops_of in Es. by rewrite Es. }
  assert (Elog : log (browser (tick r w)) = log (browser w) ++ concat (replicate k sample)).
  { rewrite tick_log, Eq, flat_map_replicate. cbn [loop_callback].
    rewrite Hcb. unfold sample_effects. fold v. by rewrite Hready. }
  split; [apply start_adds_loop|]. split; [apply switch_adds_loop|].
  split; [apply screen_start_adds_loop|]. split; [intros; apply tick_frameRequests|].
  split; [intros; apply step_keeps_loops|].
  repeat split; try done.
  - by rewrite tick_frameRequests.
  - rewrite Elog. unfold frames_delivered at 1. rewrite omap_app.
    f_equal. by apply frames_delivered_concat.
Qed.

Lemma sampling_loops_accumulate_witness :
  let inputs := [CameraBtnClick; PromiseSettles 0 (Granted 1);
                 NewCameraSelected "rear"; PromiseSettles 1 (Granted 1);
                 NewCameraSelected "front"; PromiseSettles 2 (Granted 1)] in
  let w := run inputs page_loaded in
  let frame := ImageData "image/jpeg" 640 480 (Some 9) in
  acquired Camera (browser w) = 3
  ∧ live_sources Camera (browser w) = 1
  ∧ frameRequests (browser w) = [CameraLoop; CameraLoop; CameraLoop]
  ∧ frames_delivered (log (browser (tick (640%N, 480%N, 9) w)))
    = frames_delivered (log (browser w))
      ++ [(sendImageFromCamera, frame); (sendImageFromCamera, frame);
          (sendImageFromCamera, frame)].
Proof.
  pose proof (sampling_loops_accumulate
    (LiveVideoManager.mk None (Some sendImageFromCamera))
    (LiveScreenManager.mk None (Some sendImageFromScreen))
    (LiveAudioInputManager.mk None (Some sendAudio))
    [CameraBtnClick; PromiseSettles 0 (Granted 1);
     NewCameraSelected "rear"; PromiseSettles 1 (Granted 1);
     NewCameraSelected "front"; PromiseSettles 2 (Granted 1)]
    (640%N, 480%N, 9) sendImageFromCamera eq_refl eq_refl eq_refl)
    as (_ & _ & _ & _ & _ & _ & _ & Eq & _ & _ & Ef).
  split; [reflexivity|]. split; [reflexivity|]. split; [exact Eq | exact Ef].
Defined.

(** ** C1: one live source per manager *)

(** A device switch stops every track of the stream held before it asks
    the platform for the new one: the stops precede the request in the
    log, and when the request is issued the old stream has no live
    track. *)
Lemma switch_tears_down_first (w : World) (deviceId : string) :
  let p := length (promises (browser w)) in
  let cam := exec (camera_switch deviceId) w in
  let mic := exec (microphone_switch deviceId) w in
  (log (browser cam)
   = log (browser w) ++ teardown (LiveVideoManager.stream (liveVideoManager w)) (browser w)
     ++ [Requested p (UserMediaVideo (device_constraint (Some deviceId)))]
   ∧ handle_live (LiveVideoManager.stream (liveVideoManager w)) (browser cam) = false)
  ∧ (log (browser mic)
     = log (browser w)
       ++ teardown (LiveAudioInputManager.stream (liveAudioInputManager w)) (browser w)
       ++ [Requested p (UserMediaAudio (device_constraint (Some deviceId)))]
     ∧ handle_live (LiveAudioInputManager.stream (liveAudioInputManager w)) (browser mic)
       = false).
Proof.
  destruct w as [[ss ps v c fq g lg] [[s|] cb] sm [[s'|] cb']];
    cbn -[handle_live]; rewrite <- ?app_assoc; repeat split; try done;
    first [ apply (handle_dead_after_stop s (mkBrowser ss ps v c fq g lg))
          | apply (handle_dead_after_stop s' (mkBrowser ss ps v c fq g lg)) ].
Qed.

(** C1 at the sequence the code does not handle.  A second start without
    a stop in between overwrites the handle: both camera streams are live,
    and a stop afterwards ends only the second, leaving the first live
    with no handle to it.  The screen and microphone managers do the
    same. *)
Theorem second_start_leaks_first_stream :
  let cam := run [StartWebcam (Some "A"); PromiseSettles 0 (Granted 1);
                  StartWebcam (Some "B"); PromiseSettles 1 (Granted 1)] constructed in
  let scr := run [StartCapture; PromiseSettles 0 (Granted 1);
                  StartCapture; PromiseSettles 1 (Granted 1)] constructed in
  let mic := run [ConnectMicrophone (Some "A"); PromiseSettles 0 (Granted 1);
                  ConnectMicrophone (Some "B"); PromiseSettles 1 (Granted 1)] constructed in
  (live_sources Camera (browser cam) = 2
   ∧ LiveVideoManager.stream (liveVideoManager cam) = Some 1
   ∧ live_sources Camera (browser (step StopWebcam cam)) = 1
   ∧ LiveVideoManager.stream (liveVideoManager (step StopWebcam cam)) = None
   ∧ streams (browser (step StopWebcam cam))
     = [mkStream Camera [Live]; mkStream Camera [Ended]])
  ∧ (live_sources Screen (browser scr) = 2
     ∧ live_sources Screen (browser (step StopCapture scr)) = 1
     ∧ LiveScreenManager.stream (liveScreenManager (step StopCapture scr)) = None)
  ∧ (live_sources Microphone (browser mic) = 2
     ∧ live_sources Microphone (browser (step DisconnectMicrophone mic)) = 1
     ∧ LiveAudioInputManager.stream (liveAudioInputManager (step DisconnectMicrophone mic))
       = None).
Proof. by vm_compute. Qed.

(** ** C4: camera and screen exclude each other *)

(** Enabling one video source stops the stream the other manager holds
    before it asks the platform for its own. *)
Lemma enable_stops_other_first (w : World) :
  let p := length (promises (browser w)) in
  let cam := exec cameraBtnClick w in
  let scr := exec screenShareBtnClick w in
  (log (browser cam)
   = log (browser w) ++ teardown (LiveScreenManager.stream (liveScreenManager w)) (browser w)
     ++ [Requested p (UserMediaVideo DeviceUndefined)]
   ∧ LiveScreenManager.stream (liveScreenManager cam) = None
   ∧ handle_live (LiveScreenManager.stream (liveScreenManager w)) (browser cam) = false)
  ∧ (log (browser scr)
     = log (browser w) ++ teardown (LiveVideoManager.stream (liveVideoManager w)) (browser w)
       ++ [Requested p DisplayMediaVideo]
     ∧ LiveVideoManager.stream (liveVideoManager scr) = None
     ∧ handle_live (LiveVideoManager.stream (liveVideoManager w)) (browser scr) = false).
Proof.
  destruct w as [[ss ps v c fq g lg] [[s|] cb] [[s'|] cb'] am];
    cbn -[handle_live]; rewrite <- ?app_assoc; repeat split; try done;
    first [ apply (handle_dead_after_stop s (mkBrowser ss ps v c fq g lg))
          | apply (handle_dead_after_stop s' (mkBrowser ss ps v c fq g lg)) ].
Qed.

(** C4 at two input sequences the page can receive.  Camera button, then
    screen button while the camera acquisition is still pending: the stop
    of the camera finds no stream, both acquisitions are granted, both
    managers hold a live stream and both loops sample.  Camera button
    twice, then screen button, each acquisition granted before the next
    click: the first camera stream has lost its handle and stays live
    next to the screen stream. *)
Theorem both_video_sources_live :
  let race := run [CameraBtnClick; ScreenShareBtnClick;
                   PromiseSettles 0 (Granted 1); PromiseSettles 1 (Granted 1)]
                  page_loaded in
  let leak := run [CameraBtnClick; PromiseSettles 0 (Granted 1);
                   CameraBtnClick; PromiseSettles 1 (Granted 1);
                   ScreenShareBtnClick; PromiseSettles 2 (Granted 1)] page_loaded in
  (handle_live (LiveVideoManager.stream (liveVideoManager race)) (browser race) = true
   ∧ handle_live (LiveScreenManager.stream (liveScreenManager race)) (browser race) = true
   ∧ live_sources Camera (browser race) = 1
   ∧ live_sources Screen (browser race) = 1
   ∧ frameRequests (browser race) = [CameraLoop; ScreenLoop])
  ∧ (LiveVideoManager.stream (liveVideoManager leak) = None
     ∧ handle_live (LiveScreenManager.stream (liveScreenManager leak)) (browser leak) = true
     ∧ live_sources Camera (browser leak) = 1
     ∧ live_sources Screen (browser leak) = 1).
Proof. by vm_compute. Qed.

(** ** What the stop-first discipline gives *)

Lemma ended_handle_length h ss : length (ended_handle h ss) = length ss.
Proof. destruct h; [apply length_alter | done]. Qed.

Lemma others_ended_after_stop k h ss :
  others_ended k h ss → others_ended k None (ended_handle h ss).
Proof.
  intros H i ms Hi Hk _. destruct h as [s|]; [|by eapply H].
  cbn in Hi. destruct (decide (s = i)) as [->|Hne].
  - rewrite list_lookup_alter_eq in Hi.
    apply fmap_Some in Hi as (ms0 & _ & ->). apply live_tracks_all_ended.
  - rewrite list_lookup_alter_ne in Hi by done.
    eapply H; [done..|]. congruence.
Qed.

Lemma others_ended_new k ss ms :
  others_ended k None ss → others_ended k (Some (length ss)) (ss ++ [ms]).
Proof.
  intros H i ms' Hi Hk Hne.
  assert (i < length ss ∨ i = length ss) as [Hlt| ->].
  { apply lookup_lt_Some in Hi. rewrite length_app in Hi. cbn in Hi. lia. }
  - rewrite lookup_app_l in Hi by done. by eapply H.
  - done.
Qed.

Lemma none_live k ss :
  others_ended k None ss → filter (λ ms, kind ms = k ∧ 0 < live_tracks ms) ss = [].
Proof.
  induction ss as [|ms ss IH]; intros H; [done|].
  rewrite filter_cons_False.
  - apply IH. intros i ms' Hi Hk _. by apply (H (S i)).
  - intros [Hk Hl]. assert (live_tracks ms = 0) by (by apply (H 0)). lia.
Qed.

Lemma at_most_one_live k h ss :
  others_ended k h ss →
  length (filter (λ ms, kind ms = k ∧ 0 < live_tracks ms) ss) ≤ 1.
Proof.
  revert h. induction ss as [|ms ss IH]; intros h H; [cbn; lia|].
  destruct (decide (h = Some 0)) as [->|Hne].
  - rewrite filter_cons. rewrite (none_live k ss).
    + destruct (decide _); cbn; lia.
    + intros i ms' Hi Hk _. by apply (H (S i)).
  - rewrite filter_cons_False.
    + apply (IH (pred <$> h)). intros i ms' Hi Hk Hh. apply (H (S i)); [done..|].
      intros ->. by apply Hh.
    + intros [Hk Hl]. assert (live_tracks ms = 0) by (by apply (H 0)). lia.
Qed.

Lemma awaited_op_streams w op :
  let h := LiveVideoManager.stream (liveVideoManager w) in
  let ss := streams (browser w) in
  let w' := awaited_op w op in
  match op with
  | Switch _ (Granted n) =>
      streams (browser w') = ended_handle h ss ++ [mkStream Camera (replicate n Live)]
      ∧ LiveVideoManager.stream (liveVideoManager w') = Some (length ss)
  | _ =>
      streams (browser w') = ended_handle h ss
      ∧ LiveVideoManager.stream (liveVideoManager w') = None
  end.
Proof.
  destruct op as [|d [n|e]].
  - by destruct w as [[ss ps v c fq g lg] [[s|] cb] sm am].
  - destruct w as [[ss ps v c fq g lg] [[s|] cb] sm am];
      unfold awaited_op; cbn [run foldl browser promises]; rewrite step_settle;
      unfold step; settle_last;
      rewrite resume_startWebcam_fulfilled, resume_update_fulfilled by done; cbn;
      by rewrite ?length_alter.
  - destruct w as [[ss ps v c fq g lg] [[s|] cb] sm am];
      unfold awaited_op; cbn [run foldl browser promises]; rewrite step_settle;
      unfold step; settle_last; by rewrite !resume_rejected.
Qed.

Lemma awaited_op_others_ended w op :
  others_ended Camera (LiveVideoManager.stream (liveVideoManager w)) (streams (browser w)) →
  others_ended Camera (LiveVideoManager.stream (liveVideoManager (awaited_op w op)))
               (streams (browser (awaited_op w op))).
Proof.
  intros H. pose proof (awaited_op_streams w op) as E. cbv zeta in E.
  apply others_ended_after_stop in H.
  destruct op as [|d [n|e]]; destruct E as [-> ->]; try done.
  rewrite <- (ended_handle_length (LiveVideoManager.stream (liveVideoManager w))).
  by apply others_ended_new.
Qed.

(** When the camera manager is driven only by stops and by switches that
    are settled before the next operation, at most one camera stream is
    live after every operation, whatever the platform grants or denies. *)
Lemma switch_sequences_keep_one_live (ops : list AwaitedOp) :
  live_sources Camera (browser (foldl awaited_op constructed ops)) ≤ 1.
Proof.
  unfold live_sources.
  apply (at_most_one_live Camera
           (LiveVideoManager.stream (liveVideoManager (foldl awaited_op constructed ops)))).
  assert (H0 : others_ended Camera (LiveVideoManager.stream (liveVideoManager constructed))
                 (streams (browser constructed))) by (by intros i ms Hi).
  revert H0. generalize constructed.
  induction ops as [|op ops IH]; intros w H; [done|].
  cbn [foldl]. by apply IH, awaited_op_others_ended.
Qed.

(** After a click whose acquisition has settled, the manager of the other
    source holds no stream. *)
Lemma awaited_enable_excludes w e :
  let w' := awaited_enable w e in
  match e with
  | EnableCamera _ => LiveScreenManager.stream (liveScreenManager w') = None
  | EnableScreen _ => LiveVideoManager.stream (liveVideoManager w') = None
  end.
Proof.
  destruct e as [[n|err]|[n|err]];
    destruct w as [[ss ps v c fq g lg] [[s|] cb] [[s'|] cb'] am];
    unfold awaited_enable; cbn [run foldl browser promises]; rewrite step_settle;
    unfold step; settle_last;
    rewrite ?resume_startWebcam_fulfilled, ?resume_startCapture_fulfilled,
      ?resume_rejected; done.
Qed.

(** A stop issued while the acquisition is pending finds no stream to
    stop, and the stream that arrives afterwards goes live. *)
Example stop_while_pending_is_lost :
  let w := run [StartWebcam None; StopWebcam; PromiseSettles 0 (Granted 1)] constructed in
  LiveVideoManager.stream (liveVideoManager w) = Some 0
  ∧ srcObject (video (browser w)) = Some 0
  ∧ live_sources Camera (browser w) = 1.
Proof. by vm_compute. Qed.

(** * Further properties of the capture classes *)

(** ** A rejected start *)

(** When the platform rejects the acquisition of a start, the caller's
    promise is rejected with the same error and the start leaves the
    managers, the streams, the display, the canvas, the sampling loops
    and the audio graphs as they were, whatever was held or bound
    before: the log gains the request and one console error, the promise
    is settled, and nothing else changes.  This holds for [startWebcam],
    [startCapture] and [connectMicrophone]. *)
Theorem rejected_start_changes_nothing (w : World) (deviceId : option string) (e : JsError) :
  let p := length (promises (browser w)) in
  let unchanged (r : MediaRequest) (message : string) (w' : World) :=
    w' = with_browser
           (mkBrowser (streams (browser w)) (promises (browser w) ++ [Settled])
                      (video (browser w)) (canvas (browser w))
                      (frameRequests (browser w)) (audioGraphs (browser w))
                      (log (browser w) ++ [Requested p r; ConsoleError message e])) w in
  let cam := settle p (Denied e) (step (StartWebcam deviceId) w) in
  let scr := settle p (Denied e) (step StartCapture w) in
  let mic := settle p (Denied e) (step (ConnectMicrophone deviceId) w) in
  (cam.1 = Throw e
   ∧ unchanged (UserMediaVideo (device_constraint deviceId)) "Error starting webcam:" cam.2)
  ∧ (scr.1 = Throw e
     ∧ unchanged DisplayMediaVideo "Error starting screen capture:" scr.2)
  ∧ (mic.1 = Throw e
     ∧ unchanged (UserMediaAudio (device_constraint deviceId))
         "Error connecting microphone:" mic.2).
Proof.
  destruct w as [[ss ps v c fq g lg] vm sm am]. cbv zeta.
  rewrite step_StartWebcam, step_StartCapture, step_ConnectMicrophone.
  repeat split;
    unfold step; settle_last; rewrite resume_rejected; cbn;
    unfold with_browser, emit; cbn; by rewrite <- ?app_assoc.
Qed.

(** ** Handles refer to streams of their own kind *)

Lemma kinds_grown (ss : list MediaStream) ms s k :
  (kind <$> ss) !! s = Some k → (kind <$> (ss ++ [ms])) !! s = Some k.
Proof. intros H. rewrite fmap_app. by apply lookup_app_l_Some. Qed.

Lemma kinds_new (ss : list MediaStream) k ts :
  (kind <$> (ss ++ [mkStream k ts])) !! length ss = Some k.
Proof. by rewrite list_lookup_fmap, lookup_last. Qed.

Ltac handles_by H :=
  unfold handles_sound, refers_to, display_refers, kinds in *; cbn in *;
  rewrite ?kinds_alter_stop, ?kinds_new;
  destruct H as (? & ? & ? & ?);
  repeat split; try done;
  repeat match goal with
         | H : _ ∨ _ |- _ => destruct H
         end;
  try (by apply kinds_grown);
  try (left; by apply kinds_grown);
  try (right; by apply kinds_grown);
  auto.

Lemma settle_handles_sound p o w :
  consistent (browser w) → handles_sound w → handles_sound (settle p o w).2.
Proof.
  intros Hc H.
  destruct (promises (browser w) !! p) as [[r stack|]|] eqn:E;
    [|rewrite settle_not_awaiting by (intros ??; congruence); exact H ..].
  pose proof (Forall_lookup_1 _ _ _ _ (proj1 Hc) E) as Hfit. cbn in Hfit.
  rewrite (settle_awaiting _ _ _ _ _ E). clear Hc E.
  destruct w as [[ss ps [[src|] vw vh pic] c fq g lg] [[s|] cb] [[s'|] cb'] [[s''|] cb'']];
    (destruct r as [cs|cs|]; cbn in Hfit;
     [destruct Hfit as [-> | ->] | destruct Hfit as [-> | ->] | subst stack]);
    destruct o as [n|e]; cbn [resume_stack];
    rewrite ?resume_startWebcam_fulfilled, ?resume_startCapture_fulfilled,
      ?resume_connectMicrophone_fulfilled, ?resume_rejected,
      ?resume_update_fulfilled by done;
    cbn [browser with_browser rejection_message fst snd];
    handles_by H.
Qed.

Lemma step_handles_sound i w :
  consistent (browser w) → handles_sound w → handles_sound (step i w).
Proof.
  intros Hc H. destruct i;
    try solve [destruct w as [[? ? [[?|] ? ? ?] ? ? ? ?]
                              [[?|] ?] [[?|] ?] [[?|] ?]];
               cbn -[handles_sound]; unfold_browser; handles_by H].
  - by apply settle_handles_sound.
  - change (step AnimationFrame w) with (animation_frame w).2.
    rewrite animation_frame_eq.
    destruct w as [[ss ps [[?|] vw vh pic] c fq g lg] [[?|] ?] [[?|] ?] [[?|] ?]];
      handles_by H.
  - unfold step, exec, audio_process.
    destruct (audioGraphs (browser w) !! g) as [graph|]; [|exact H].
    destruct (onaudioprocess graph); [|exact H].
    destruct w as [b vm sm [s [cb|]]]; [|exact H].
    unfold on_audio, zoom, LiveAudioInputManager.onaudioprocess_handler, bind, this_get, gets,
      LiveAudioInputManager.getChannelData.
    cbn. destruct (inputBuffer !! 0); exact H.
Qed.

Lemma run_sound inputs w :
  consistent (browser w) → handles_sound w →
  consistent (browser (run inputs w)) ∧ handles_sound (run inputs w).
Proof.
  revert w. induction inputs as [|i inputs IH]; intros w Hc H; [done|].
  rewrite run_cons. apply IH; [by apply step_consistent | by apply step_handles_sound].
Qed.

(** On a page whose managers start with no stream, after any inputs: the
    camera manager's handle is null or refers to a camera stream, the
    screen manager's to a screen stream, the microphone manager's to a
    microphone stream, and the display is unbound or bound to a camera or
    screen stream; no handle ever refers to a stream that was not handed
    over, or to one acquired by another manager. *)
Theorem handles_refer_to_own_kind (cbv cbs cba : option Callback) (inputs : list Input) :
  let w := run inputs (fresh_page cbv cbs cba) in
  handles_sound w
  ∧ (∀ s, LiveVideoManager.stream (liveVideoManager w) = Some s →
          kind <$> streams (browser w) !! s = Some Camera)
  ∧ (∀ s, LiveScreenManager.stream (liveScreenManager w) = Some s →
          kind <$> streams (browser w) !! s = Some Screen)
  ∧ (∀ s, LiveAudioInputManager.stream (liveAudioInputManager w) = Some s →
          kind <$> streams (browser w) !! s = Some Microphone)
  ∧ (∀ s, srcObject (video (browser w)) = Some s →
          ∃ ms, streams (browser w) !! s = Some ms ∧ kind ms ≠ Microphone).
Proof.
  intros w.
  destruct (run_sound inputs (fresh_page cbv cbs cba)) as [_ H];
    [apply empty_browser_consistent | by repeat split |].
  fold w in H. split; [exact H|].
  destruct H as (Hv & Hs & Ha & Hd).
  unfold refers_to, display_refers, kinds in *.
  repeat split; intros s E; rewrite E in *; rewrite <- ?list_lookup_fmap; try done.
  rewrite !list_lookup_fmap in Hd.
  destruct (_ !! _) as [ms|]; [|by destruct Hd].
  exists ms. split; [done|]. cbn in Hd. destruct Hd as [Hd|Hd]; injection Hd as Hd;
    by rewrite Hd.
Qed.

(** ** Audio graphs accumulate *)

Ltac graphs_by H :=
  unfold graphs_sound, acquired in *; cbn in *;
  rewrite ?kinds_alter_stop, ?fmap_app, ?list.filter_app, ?length_app;
  destruct H as (? & ?);
  split; [cbn; repeat case_decide; try done; cbn; lia
         | rewrite ?Forall_app; repeat split; try done; by apply Forall_singleton].

Lemma settle_graphs_sound p o w :
  consistent (browser w) → graphs_sound (browser w) → graphs_sound (browser (settle p o w).2).
Proof.
  intros Hc H.
  destruct (promises (browser w) !! p) as [[r stack|]|] eqn:E;
    [|rewrite settle_not_awaiting by (intros ??; congruence); exact H ..].
  pose proof (Forall_lookup_1 _ _ _ _ (proj1 Hc) E) as Hfit. cbn in Hfit.
  rewrite (settle_awaiting _ _ _ _ _ E). clear Hc E.
  destruct w as [[ss ps v c fq g lg] vm sm am];
    (destruct r as [cs|cs|]; cbn in Hfit;
     [destruct Hfit as [-> | ->] | destruct Hfit as [-> | ->] | subst stack]);
    destruct o as [n|e]; cbn [resume_stack];
    rewrite ?resume_startWebcam_fulfilled, ?resume_startCapture_fulfilled,
      ?resume_connectMicrophone_fulfilled, ?resume_rejected,
      ?resume_update_fulfilled by done;
    cbn [browser with_browser rejection_message fst snd];
    graphs_by H.
Qed.

Lemma step_graphs_sound i w :
  consistent (browser w) → graphs_sound (browser w) → graphs_sound (browser (step i w)).
Proof.
  intros Hc H. destruct i;
    try solve [destruct w as [[? ? ? ? ? ? ?] [[?|] ?] [[?|] ?] [[?|] ?]];
               cbn -[graphs_sound]; unfold_browser; graphs_by H].
  - by apply settle_graphs_sound.
  - change (step AnimationFrame w) with (animation_frame w).2.
    rewrite animation_frame_eq. destruct w as [[? ? ? ? ? ? ?] ? ? ?]. graphs_by H.
  - unfold step, exec, audio_process.
    destruct (audioGraphs (browser w) !! g) as [graph|]; [|exact H].
    destruct (onaudioprocess graph); [|exact H].
    destruct w as [b vm sm [s [cb|]]]; [|exact H].
    unfold on_audio, zoom, LiveAudioInputManager.onaudioprocess_handler, bind, this_get, gets,
      LiveAudioInputManager.getChannelData.
    cbn. destruct (inputBuffer !! 0); exact H.
Qed.

Lemma run_graphs_sound inputs w :
  consistent (browser w) → graphs_sound (browser w) → graphs_sound (browser (run inputs w)).
Proof.
  revert w. induction inputs as [|i inputs IH]; intros w Hc H; [done|].
  rewrite run_cons. apply IH; [by apply step_consistent | by apply step_graphs_sound].
Qed.

Lemma resume_keeps_graphs f c w :
  ∃ added, audioGraphs (browser (resume f c w).2) = audioGraphs (browser w) ++ added.
Proof.
  destruct c as [v|e].
  - destruct f;
      rewrite ?resume_startWebcam_fulfilled, ?resume_startCapture_fulfilled,
        ?resume_connectMicrophone_fulfilled, ?resume_update_fulfilled by done;
      cbn; first [by eexists | exists []; by rewrite app_nil_r].
  - rewrite resume_rejected. exists []. rewrite app_nil_r.
    by destruct (rejection_message f).
Qed.

Lemma resume_stack_keeps_graphs stack c w :
  ∃ added,
    audioGraphs (browser (resume_stack stack c w).2) = audioGraphs (browser w) ++ added.
Proof.
  revert c w. induction stack as [|f stack IH]; intros c w.
  - exists []. by rewrite app_nil_r.
  - cbn [resume_stack]. destruct (resume_keeps_graphs f c w) as [a1 E1].
    destruct (resume f c w) as [c' w']. cbn [snd] in E1.
    destruct (IH c' w') as [a2 E2]. exists (a1 ++ a2). by rewrite E2, E1, app_assoc.
Qed.

Lemma step_keeps_graphs i w :
  ∃ added, audioGraphs (browser (step i w)) = audioGraphs (browser w) ++ added.
Proof.
  destruct i;
    try solve [exists []; rewrite app_nil_r;
               by destruct w as [? [[?|] ?] [[?|] ?] [[?|] ?]]].
  - rewrite step_settle. unfold settle.
    destruct (promises (browser w) !! p) as [[r stack|]|];
      [|exists []; by rewrite app_nil_r ..].
    destruct o as [n|e]; cbn;
      match goal with |- context [resume_stack ?s ?c ?w'] =>
        destruct (resume_stack_keeps_graphs s c w') as [a E]; exists a; by rewrite E end.
  - exists []. rewrite app_nil_r.
    change (step AnimationFrame w) with (animation_frame w).2.
    rewrite animation_frame_eq. by destruct w.
  - exists []. rewrite app_nil_r. unfold step, exec, audio_process.
    destruct (audioGraphs (browser w) !! g) as [graph|]; [|done].
    destruct (onaudioprocess graph); [|done].
    destruct w as [b vm sm [s [cb|]]]; [|done].
    unfold on_audio, zoom, LiveAudioInputManager.onaudioprocess_handler, bind, this_get, gets,
      LiveAudioInputManager.getChannelData.
    cbn. by destruct (inputBuffer !! 0).
Qed.

(** On a page started from an empty browser, after any inputs there is
    one audio graph per microphone stream handed over, each created with
    buffer size 4096, one input channel, connected to the destination and
    with its handler installed; no input removes or alters a graph.  In
    particular [disconnectMicrophone] leaves every graph in place: a
    buffer the platform hands to graph [g] after the disconnect is still
    delivered to the registered receiver. *)
Theorem audio_graphs_accumulate (cbv cbs cba : option Callback) (inputs : list Input)
    (g : nat) (cb : Callback) (data : list Sample) (more : AudioBuffer) :
  let w := run inputs (fresh_page cbv cbs cba) in
  let stopped := step DisconnectMicrophone w in
  g < length (audioGraphs (browser w)) →
  LiveAudioInputManager.onNewAudioRecordingChunk (liveAudioInputManager w) = Some cb →
  length (audioGraphs (browser w)) = acquired Microphone (browser w)
  ∧ Forall (λ graph, bufferSize graph = 4096 ∧ numberOfInputChannels graph = 1
                     ∧ processor_to_destination graph = true
                     ∧ onaudioprocess graph = true) (audioGraphs (browser w))
  ∧ (∀ w0 i, ∃ added, audioGraphs (browser (step i w0)) = audioGraphs (browser w0) ++ added)
  ∧ audioGraphs (browser stopped) = audioGraphs (browser w)
  ∧ LiveAudioInputManager.stream (liveAudioInputManager stopped) = None
  ∧ step (AudioProcess g (data :: more)) stopped
    = with_browser (emit (ChunkDelivered cb data) (browser stopped)) stopped.
Proof.
  intros w stopped Hg Hcb.
  destruct (run_graphs_sound inputs (fresh_page cbv cbs cba)) as [Hlen Hall];
    [apply empty_browser_consistent | by split |].
  fold w in Hlen, Hall.
  assert (Egraphs : audioGraphs (browser stopped) = audioGraphs (browser w)).
  { unfold stopped. by destruct w as [? ? ? [[?|] ?]]. }
  assert (Ecb : LiveAudioInputManager.onNewAudioRecordingChunk (liveAudioInputManager stopped)
                = Some cb).
  { unfold stopped. destruct w as [? ? ? [[?|] ?]]; exact Hcb. }
  split; [exact Hlen|]. split.
  { eapply Forall_impl; [|exact Hall]. intros graph ->. done. }
  split; [intros; apply step_keeps_graphs|]. split; [exact Egraphs|].
  split; [unfold stopped; by destruct w as [? ? ? [[?|] ?]]|].
  destruct (lookup_lt_is_Some_2 _ _ Hg) as [graph Hgraph].
  pose proof (Forall_lookup_1 _ _ _ _ Hall Hgraph) as Hshape.
  change (step (AudioProcess g (data :: more)) stopped)
    with (audio_process g (data :: more) stopped).2.
  rewrite (audio_process_delivers stopped g graph cb (data :: more) data); try done.
  - by rewrite Egraphs.
  - by rewrite Hshape.
Qed.

Lemma audio_graphs_accumulate_witness :
  let w := run [ConnectionStarted; PromiseSettles 0 (Granted 1); MicBtnClick;
                MicOffBtnClick; PromiseSettles 1 (Granted 1)]
               (fresh_page None None (Some sendAudio)) in
  length (audioGraphs (browser w)) = 2
  ∧ step (AudioProcess 0 [[7%N]]) (step DisconnectMicrophone w)
    = with_browser (emit (ChunkDelivered sendAudio [7%N])
                      (browser (step DisconnectMicrophone w)))
                   (step DisconnectMicrophone w).
Proof.
  pose proof (audio_graphs_accumulate None None (Some sendAudio)
    [ConnectionStarted; PromiseSettles 0 (Granted 1); MicBtnClick;
     MicOffBtnClick; PromiseSettles 1 (Granted 1)] 0 sendAudio [7%N] []) as H.
  cbv zeta in H.
  destruct H as (_ & _ & _ & _ & _ & E); [vm_compute; lia | reflexivity |].
  split; [reflexivity | exact E].
Defined.

(** ** What a step adds to the log *)

Lemma frames_ok_app es es' : frames_ok es → frames_ok es' → frames_ok (es ++ es').
Proof. intros. by apply Forall_app. Qed.

Lemma requested_app es es' : requested (es ++ es') = requested es ++ requested es'.
Proof. apply omap_app. Qed.

Lemma stops_quiet s (ts : list TrackState) :
  frames_ok (imap (λ i _, TrackStopped s i) ts)
  ∧ requested (imap (λ i _, TrackStopped s i) ts) = [].
Proof.
  unfold frames_ok, requested.
  assert (∀ (f : nat → TrackState → Effect),
            (∀ i t, ∃ j, f i t = TrackStopped s j) →
            Forall (λ e, match e with FrameDelivered _ d => frame_ok d | _ => True end)
                   (imap f ts)
            ∧ omap (λ e, match e with Requested p _ => Some p | _ => None end) (imap f ts) = [])
    as H.
  { induction ts as [|t ts IH]; intros f Hf; [done|]. cbn.
    destruct (Hf 0 t) as [j ->].
    destruct (IH (f ∘ S)) as [H1 H2]; [intros i t'; apply Hf|].
    split; [by constructor | exact H2]. }
  apply H. intros i t. by eexists.
Qed.

Lemma sample_effects_quiet cb v :
  frames_ok (sample_effects cb v) ∧ requested (sample_effects cb v) = [].
Proof.
  unfold sample_effects, frames_ok, ready.
  destruct (0 <? videoWidth v)%N eqn:Ew; [|done].
  destruct (0 <? videoHeight v)%N eqn:Eh; [|done]. cbn.
  apply N.ltb_lt in Ew, Eh.
  destruct cb as [cb|]; (split; [|done]); repeat constructor.
  by exists (videoWidth v), (videoHeight v), (picture v).
Qed.

Lemma flat_map_sample_quiet (f : Loop → option Callback) v q :
  frames_ok (flat_map (λ l, sample_effects (f l) v) q)
  ∧ requested (flat_map (λ l, sample_effects (f l) v) q) = [].
Proof.
  induction q as [|l q [IH1 IH2]]; [by split; [constructor|]|]. cbn [flat_map].
  destruct (sample_effects_quiet (f l) v) as [S1 S2].
  split; [by apply frames_ok_app | by rewrite requested_app, S2, IH2].
Qed.

Lemma step_adds_nothing w w' :
  log (browser w') = log (browser w) →
  length (promises (browser w')) = length (promises (browser w)) →
  step_adds w w' [].
Proof.
  intros El Ep. unfold step_adds. rewrite El, Ep, app_nil_r, Nat.sub_diag.
  repeat split; try done. constructor.
Qed.

Lemma step_adds_quiet w w' es :
  log (browser w') = log (browser w) ++ es →
  length (promises (browser w')) = length (promises (browser w)) →
  frames_ok es → requested es = [] →
  step_adds w w' es.
Proof.
  intros El Ep Hf Hr. unfold step_adds. rewrite El, Ep, Hr, Nat.sub_diag. by repeat split.
Qed.

Lemma resume_adds f c w :
  ∃ es, log (browser (resume f c w).2) = log (browser w) ++ es
        ∧ length (promises (browser (resume f c w).2)) = length (promises (browser w))
        ∧ frames_ok es ∧ requested es = [].
Proof.
  destruct c as [v|e].
  - destruct f;
      rewrite ?resume_startWebcam_fulfilled, ?resume_startCapture_fulfilled,
        ?resume_connectMicrophone_fulfilled, ?resume_update_fulfilled by done;
      cbn; rewrite <- ?app_assoc.
    all: try (exists []; rewrite app_nil_r; repeat split; try done; constructor).
    all: match goal with |- context [sample_effects ?cb ?v] =>
           destruct (sample_effects_quiet cb v) as [S1 S2] end.
    all: eexists; split; [reflexivity|]; split; [done|].
    all: split; [by constructor | cbn; exact S2].
  - rewrite resume_rejected.
    destruct (rejection_message f) as [m|]; cbn.
    + eexists; split; [reflexivity|]. repeat split; try done. by repeat constructor.
    + exists []. rewrite app_nil_r. repeat split; try done. constructor.
Qed.

Lemma resume_stack_adds stack c w :
  ∃ es, log (browser (resume_stack stack c w).2) = log (browser w) ++ es
        ∧ length (promises (browser (resume_stack stack c w).2))
          = length (promises (browser w))
        ∧ frames_ok es ∧ requested es = [].
Proof.
  revert c w. induction stack as [|f stack IH]; intros c w.
  - exists []. rewrite app_nil_r. repeat split; try done. constructor.
  - cbn [resume_stack]. destruct (resume_adds f c w) as (e1 & L1 & P1 & F1 & R1).
    destruct (resume f c w) as [c' w']. cbn [snd] in *.
    destruct (IH c' w') as (e2 & L2 & P2 & F2 & R2). exists (e1 ++ e2).
    rewrite L2, L1, P2, P1, requested_app, R1, R2, app_assoc.
    repeat split; try done. by apply frames_ok_app.
Qed.

Lemma requested_one p r : requested [Requested p r] = [p].
Proof. done. Qed.

Ltac adds_frames :=
  repeat first
    [ apply frames_ok_app
    | apply stops_quiet
    | by repeat constructor ].

Ltac adds_by :=
  first
    [ exists []; apply step_adds_nothing; cbn; rewrite ?alter_last, ?length_alter;
      reflexivity
    | eexists; apply step_adds_quiet;
      [ cbn; reflexivity
      | cbn; rewrite ?alter_last, ?length_alter; reflexivity
      | apply stops_quiet
      | apply stops_quiet ]
    | eexists; unfold step_adds; cbn; rewrite ?alter_last, <- ?app_assoc;
      split; [reflexivity|]; split; [adds_frames|]; split;
      [ rewrite ?length_app, ?length_alter; cbn [length]; lia
      | rewrite ?requested_app, ?(proj2 (stops_quiet _ _)), ?requested_one,
          ?length_app, ?length_alter; cbn [length app];
        match goal with
        | |- context [seq _ (?a + 1 - ?a)] => replace (a + 1 - a) with 1 by lia
        end; reflexivity ] ].

Lemma step_adds_effects i w : ∃ es, step_adds w (step i w) es.
Proof.
  destruct i;
    try solve [destruct w as [[? ? ? ? ? ? ?] [[?|] ?] [[?|] ?] [[?|] ?]];
               cbn -[step_adds]; unfold_browser; adds_by].
  - rewrite step_settle.
    destruct (promises (browser w) !! p) as [[r stack|]|] eqn:E;
      [|rewrite settle_not_awaiting by (intros ??; congruence);
        exists []; by apply step_adds_nothing ..].
    rewrite (settle_awaiting _ _ _ _ _ E).
    destruct o as [n|e]; cbv zeta;
      match goal with |- context [resume_stack ?s ?c ?w'] =>
        destruct (resume_stack_adds s c w') as (es & L & P & F & R) end;
      exists es; apply step_adds_quiet; try done;
      first [rewrite L | rewrite P];
      destruct w as [[? ? ? ? ? ? ?] ? ? ?]; cbn; by rewrite ?length_insert.
  - change (step AnimationFrame w) with (animation_frame w).2.
    rewrite animation_frame_eq.
    exists (flat_map (λ l, sample_effects (loop_callback l w) (video (browser w)))
                     (frameRequests (browser w))).
    apply step_adds_quiet; [by destruct w as [[? ? ? ? ? ? ?] ? ? ?] ..| |];
      apply (flat_map_sample_quiet (λ l, loop_callback l w)).
  - unfold step, exec, audio_process.
    destruct (audioGraphs (browser w) !! g) as [graph|];
      [|exists []; by apply step_adds_nothing].
    destruct (onaudioprocess graph); [|exists []; by apply step_adds_nothing].
    destruct w as [b vm sm [s [cb|]]]; [|exists []; by apply step_adds_nothing].
    unfold on_audio, zoom, LiveAudioInputManager.onaudioprocess_handler, bind, this_get, gets,
      LiveAudioInputManager.getChannelData.
    cbn -[step_adds]. destruct (inputBuffer !! 0); cbn -[step_adds].
    + eexists. apply step_adds_quiet; cbn; try reflexivity. by repeat constructor.
    + exists []. by apply step_adds_nothing.
Qed.

Lemma run_log_sound inputs w :
  requested (log (browser w)) = seq 0 (length (promises (browser w))) →
  frames_ok (log (browser w)) →
  requested (log (browser (run inputs w)))
  = seq 0 (length (promises (browser (run inputs w))))
  ∧ frames_ok (log (browser (run inputs w))).
Proof.
  revert w. induction inputs as [|i inputs IH]; intros w Hr Hf; [done|].
  rewrite run_cons. destruct (step_adds_effects i w) as (es & El & Hes & Hle & Hreq).
  apply IH.
  - rewrite El, requested_app, Hr, Hreq, <- seq_app. f_equal. lia.
  - rewrite El. by apply frames_ok_app.
Qed.

(** ** One request per promise, and no retry *)

Lemma platform_adds_no_request w0 i :
  platform_input i = true →
  length (promises (browser (step i w0))) = length (promises (browser w0))
  ∧ requested (log (browser (step i w0))) = requested (log (browser w0)).
Proof.
  intros Hi.
  assert (Hlen : length (promises (browser (step i w0))) = length (promises (browser w0))).
  { destruct i; try done.
    - rewrite step_settle.
      destruct (promises (browser w0) !! p) as [[r stack|]|] eqn:E;
        [|rewrite settle_not_awaiting by (intros ??; congruence); done ..].
      rewrite (settle_awaiting _ _ _ _ _ E).
      destruct o as [n|e]; cbv zeta;
        match goal with |- context [resume_stack ?s ?c ?w'] =>
          destruct (resume_stack_adds s c w') as (es & L & P & F & R) end;
        rewrite P; destruct w0 as [[? ? ? ? ? ? ?] ? ? ?]; cbn; by rewrite length_insert.
    - change (step AnimationFrame w0) with (animation_frame w0).2.
      rewrite animation_frame_eq. by destruct w0 as [[? ? ? ? ? ? ?] ? ? ?].
    - unfold step, exec, audio_process.
      destruct (audioGraphs (browser w0) !! g) as [graph|]; [|done].
      destruct (onaudioprocess graph); [|done].
      destruct w0 as [b vm sm [s [cb|]]]; [|done].
      unfold on_audio, zoom, LiveAudioInputManager.onaudioprocess_handler, bind, this_get,
        gets, LiveAudioInputManager.getChannelData.
      cbn. by destruct (inputBuffer !! 0). }
  split; [exact Hlen|].
  destruct (step_adds_effects i w0) as (es & El & _ & _ & Hreq).
  rewrite El, requested_app, Hreq, Hlen, Nat.sub_diag. cbn. by rewrite app_nil_r.
Qed.

(** On a page started from an empty browser, after any inputs, the
    requests in the log are exactly the promises created, each asked for
    once and in order.  The platform's own inputs (a promise settling,
    fulfilled or rejected; a display refresh; a size report; an audio
    buffer) never create a promise and never add a request, in any
    state: nothing is retried or re-acquired behind the caller's back. *)
Theorem one_request_per_promise (cbv cbs cba : option Callback) (inputs : list Input) :
  let w := run inputs (fresh_page cbv cbs cba) in
  let quiet (i : Input) :=
    ∀ w0, length (promises (browser (step i w0))) = length (promises (browser w0))
          ∧ requested (log (browser (step i w0))) = requested (log (browser w0)) in
  requested (log (browser w)) = seq 0 (length (promises (browser w)))
  ∧ (∀ p o, quiet (PromiseSettles p o))
  ∧ quiet AnimationFrame
  ∧ (∀ vw vh pic, quiet (VideoReports vw vh pic))
  ∧ (∀ g inputBuffer, quiet (AudioProcess g inputBuffer)).
Proof.
  intros w quiet. split.
  - destruct (run_log_sound inputs (fresh_page cbv cbs cba)) as [H _];
      [done | constructor | exact H].
  - repeat split; intros; by apply platform_adds_no_request.
Qed.

(** ** Delivered frames *)

(** On a page started from an empty browser, after any inputs, every
    frame ever handed to a receiver is a JPEG data URL of strictly
    positive width and height with a picture drawn in it: the sampler
    never delivers the empty data URL or a cleared canvas. *)
Theorem delivered_frames_are_jpeg (cbv cbs cba : option Callback) (inputs : list Input) :
  let w := run inputs (fresh_page cbv cbs cba) in
  Forall (λ delivery, frame_ok delivery.2) (frames_delivered (log (browser w))).
Proof.
  intros w.
  destruct (run_log_sound inputs (fresh_page cbv cbs cba)) as [_ H]; [done | constructor |].
  fold w in H. unfold frames_ok in H. unfold frames_delivered.
  induction H as [|e es He _ IH]; [constructor|].
  cbn. destruct e; try exact IH. by constructor.
Qed.

(** * Properties of the page script *)

(** ** The status display *)

Lemma setAppStatus_shown (status : string) (d : StatusDisplay) :
  shown (setAppStatus status d)
  = if bool_decide (status ∈ ["disconnected"; "connecting"; "connected"; "speaking"])
    then [status] else [].
Proof.
  unfold setAppStatus.
  destruct (String.eqb_spec status "disconnected") as [->|H1]; [done|].
  destruct (String.eqb_spec status "connecting") as [->|H2]; [done|].
  destruct (String.eqb_spec status "connected") as [->|H3]; [done|].
  destruct (String.eqb_spec status "speaking") as [->|H4]; [done|].
  rewrite bool_decide_eq_false_2; [done|].
  rewrite !elem_of_cons, elem_of_nil. by intros [?|[?|[?|[?|[]]]]].
Qed.

(** [setAppStatus] shows the indicator named by its argument and hides
    the other three, whatever was shown before; a status that is none of
    the four names hides all four.  The display after a call does not
    depend on the display before it, so of two calls the later one
    decides. *)
Theorem status_shows_only_the_named (status earlier : string) (d d' : StatusDisplay) :
  shown (setAppStatus status d)
  = (if bool_decide (status ∈ ["disconnected"; "connecting"; "connected"; "speaking"])
     then [status] else [])
  ∧ setAppStatus status d = setAppStatus status d'
  ∧ setAppStatus status (setAppStatus earlier d) = setAppStatus status d.
Proof.
  split; [apply setAppStatus_shown|].
  unfold setAppStatus. cbn.
  by destruct (String.eqb status "disconnected"), (String.eqb status "connecting"),
    (String.eqb status "connected"), (String.eqb status "speaking").
Qed.

(** ** The response modality *)

(** [getSelectedResponseModality] returns the value of the first checked
    radio button, in document order, and [undefined] exactly when no
    button is checked; buttons after the first checked one are not looked
    at. *)
Theorem first_checked_radio_is_selected (radioButtons : list RadioButton.t) :
  (∀ v, getSelectedResponseModality radioButtons = Some v
        ↔ ∃ before r after,
            radioButtons = before ++ r :: after
            ∧ Forall (λ r', RadioButton.checked r' = false) before
            ∧ RadioButton.checked r = true ∧ RadioButton.value r = v)
  ∧ (getSelectedResponseModality radioButtons = None
     ↔ Forall (λ r, RadioButton.checked r = false) radioButtons).
Proof.
  induction radioButtons as [|r rs [IHs IHn]]; cbn.
  - split; [|done]. intros v; split; [done|].
    intros (before & r & after & E & _). by destruct before.
  - destruct (RadioButton.checked r) eqn:Hc.
    + split.
      * intros v; split.
        -- intros [= <-]. exists [], r, rs. by repeat split.
        -- intros (before & r' & after & E & Hb & Hr & Hv).
           destruct before as [|r0 before]; cbn in E.
           ++ injection E as -> ->. by rewrite Hv.
           ++ injection E as -> ->. inversion_clear Hb. congruence.
      * split; [done|]. intros H. inversion_clear H. congruence.
    + split.
      * intros v. rewrite IHs. split.
        -- intros (before & r' & after & -> & Hb & Hr & Hv).
           exists (r :: before), r', after. repeat split; [by constructor|done..].
        -- intros (before & r' & after & E & Hb & Hr & Hv).
           destruct before as [|r0 before]; cbn in E.
           ++ injection E as -> ->. congruence.
           ++ injection E as -> ->. inversion_clear Hb.
              by exists before, r', after.
      * rewrite IHn. split; [by constructor|]. intros H. by inversion_clear H.
Qed.

(** ** Device lists and the select elements *)

Lemma getAvailableDevices_from (acc : list DeviceEntry.t) allDevices deviceType :
  foldl (λ devices device,
           if String.eqb (MediaDeviceInfo.kind device) deviceType
           then devices ++ [DeviceEntry.mk (MediaDeviceInfo.deviceId device)
                              (or_else (MediaDeviceInfo.label device)
                                       (MediaDeviceInfo.deviceId device))]
           else devices)
        acc allDevices
  = acc ++ ((λ d, DeviceEntry.mk (MediaDeviceInfo.deviceId d)
                    (or_else (MediaDeviceInfo.label d) (MediaDeviceInfo.deviceId d)))
            <$> filter (λ d, MediaDeviceInfo.kind d = deviceType) allDevices).
Proof.
  revert acc. induction allDevices as [|d ds IH]; intros acc; cbn [foldl].
  - by rewrite filter_nil, app_nil_r.
  - rewrite IH. destruct (String.eqb_spec (MediaDeviceInfo.kind d) deviceType) as [E|E].
    + rewrite filter_cons_True by done. cbn. by rewrite <-app_assoc.
    + by rewrite filter_cons_False by done.
Qed.

(** [getAvailableDevices] keeps the devices of the asked kind, one entry
    each, in the order the platform listed them; an entry's id is the
    device id, its name is the label, or the device id when the label is
    empty, so a name is empty only when the id is empty too. *)
Theorem available_devices_in_order (allDevices : list MediaDeviceInfo.t) (deviceType : string) :
  let devices := getAvailableDevices allDevices deviceType in
  DeviceEntry.id <$> devices
  = MediaDeviceInfo.deviceId
    <$> filter (λ d, MediaDeviceInfo.kind d = deviceType) allDevices
  ∧ Forall (λ e, ∃ d, d ∈ allDevices ∧ MediaDeviceInfo.kind d = deviceType
                      ∧ DeviceEntry.id e = MediaDeviceInfo.deviceId d
                      ∧ DeviceEntry.name e
                        = (if decide (MediaDeviceInfo.label d = "")
                           then MediaDeviceInfo.deviceId d else MediaDeviceInfo.label d))
           devices
  ∧ Forall (λ e, DeviceEntry.name e = "" → DeviceEntry.id e = "") devices.
Proof.
  intros devices. subst devices. unfold getAvailableDevices.
  rewrite getAvailableDevices_from. cbn [app].
  split; [|split].
  - rewrite <-list_fmap_compose. done.
  - apply Forall_fmap, list.Forall_forall. intros d Hd.
    apply list_elem_of_filter in Hd as [Hk Hd].
    exists d. repeat split; try done. cbn. unfold or_else.
    destruct (String.eqb_spec (MediaDeviceInfo.label d) ""); by case_decide.
  - apply Forall_fmap, list.Forall_forall. intros d _. cbn. unfold or_else.
    destruct (String.eqb_spec (MediaDeviceInfo.label d) ""); [done|].
    intros ?. done.
Qed.

Lemma setMaterialSelect_eq allOptions selectElement :
  setMaterialSelect allOptions selectElement
  = selectElement
    ++ ((λ o, SelectOption.mk (DeviceEntry.id o) (DeviceEntry.name o)) <$> allOptions).
Proof.
  unfold setMaterialSelect. revert selectElement.
  induction allOptions as [|o os IH]; intros sel; cbn.
  - by rewrite app_nil_r.
  - by rewrite IH, <-app_assoc.
Qed.


(** ** From the device list to the request *)

(** From the device list to the request: when the user picks the i-th
    camera (j-th microphone) option of a select populated from the device
    list, the last thing the page does is to ask the platform for exactly
    that device, by its id, or for the default device when the id is
    empty; the request is pending with the switching method waiting on
    it, and the manager holds no stream until it settles. *)
Theorem picked_device_is_requested (allDevices : list MediaDeviceInfo.t) (i j : nat)
    (camera microphone : MediaDeviceInfo.t) (w : World) :
  filter (λ d, MediaDeviceInfo.kind d = "videoinput") allDevices !! i = Some camera →
  filter (λ d, MediaDeviceInfo.kind d = "audioinput") allDevices !! j = Some microphone →
  let asked d :=
    if decide (MediaDeviceInfo.deviceId d = "") then DeviceUndefined
    else DeviceExact (MediaDeviceInfo.deviceId d) in
  let p := length (promises (browser w)) in
  let cam := exec (pick_camera (setAvailableCamerasOptions allDevices []) i) w in
  let mic := exec (pick_microphone (setAvailableMicrophoneOptions allDevices []) j) w in
  (list.last (log (browser cam)) = Some (Requested p (UserMediaVideo (asked camera)))
   ∧ promises (browser cam)
     = promises (browser w)
       ++ [Awaiting (UserMediaVideo (asked camera)) [InStartWebcam; InUpdateWebcamDevice]]
   ∧ LiveVideoManager.stream (liveVideoManager cam) = None)
  ∧ (list.last (log (browser mic)) = Some (Requested p (UserMediaAudio (asked microphone)))
     ∧ promises (browser mic)
       = promises (browser w)
         ++ [Awaiting (UserMediaAudio (asked microphone))
                      [InConnectMicrophone; InUpdateMicrophoneDevice]]
     ∧ LiveAudioInputManager.stream (liveAudioInputManager mic) = None).
Proof.
  intros Hc Hm asked p cam mic. subst cam mic.
  unfold setAvailableCamerasOptions, setAvailableMicrophoneOptions, getAvailableCameras,
    getAvailableAudioInputs, getAvailableDevices, pick_camera, pick_microphone.
  rewrite !setMaterialSelect_eq, !getAvailableDevices_from. cbn [app].
  rewrite <-!list_fmap_compose, !list_lookup_fmap, Hc, Hm. cbn [fmap option_fmap option_map compose
    SelectOption.value DeviceEntry.id].
  assert (∀ d, device_constraint (Some (MediaDeviceInfo.deviceId d)) = asked d) as Ha.
  { intros d. unfold asked. cbn.
    destruct (String.eqb_spec (MediaDeviceInfo.deviceId d) ""); by case_decide. }
  subst p. rewrite <-!Ha. generalize (MediaDeviceInfo.deviceId camera) as a.
  generalize (MediaDeviceInfo.deviceId microphone) as m. intros m a.
  destruct w as [[ss ps v c fq g lg] [[s|] cb] sm [[s'|] cb']];
    cbn; rewrite ?app_assoc, ?last_snoc, ?alter_last; done.
Qed.

Lemma picked_device_is_requested_witness :
  let allDevices :=
    [MediaDeviceInfo.mk "cam-1" "videoinput" "Front camera";
     MediaDeviceInfo.mk "mic-1" "audioinput" "";
     MediaDeviceInfo.mk "" "videoinput" ""] in
  list.last (log (browser (exec (pick_camera (setAvailableCamerasOptions allDevices []) 1)
                             page_loaded)))
  = Some (Requested 0 (UserMediaVideo DeviceUndefined))
  ∧ list.last (log (browser (exec (pick_microphone
                                     (setAvailableMicrophoneOptions allDevices []) 0)
                                  page_loaded)))
    = Some (Requested 0 (UserMediaAudio (DeviceExact "mic-1"))).
Proof.
  pose proof (picked_device_is_requested
    [MediaDeviceInfo.mk "cam-1" "videoinput" "Front camera";
     MediaDeviceInfo.mk "mic-1" "audioinput" "";
     MediaDeviceInfo.mk "" "videoinput" ""]
    1 0 (MediaDeviceInfo.mk "" "videoinput" "") (MediaDeviceInfo.mk "mic-1" "audioinput" "")
    page_loaded eq_refl eq_refl) as H.
  cbv zeta in H. destruct H as ((Ec & _) & (Em & _)).
  split; [exact Ec | exact Em].
Defined.

(** ** The page as a whole *)

Lemma world_page_step pg ev :
  world (page_step pg ev)
  = match capture_input ev with Some i => step i (world pg) | None => world pg end.
Proof.
  destruct pg as [w st mb mo dm dop tc tm ap].
  destruct ev as [i|rs si pr tok|m|[typed|type data]]; try done.
  - destruct i; try done; by destruct w as [b vm sm [[s|] cb]].
  - cbn. unfold Handlers.onReceiveResponse.
    by destruct (String.eqb type "AUDIO"), (String.eqb type "TEXT").
Qed.

(** The page with its controls, chat and transport calls refines the
    capture pipeline: after any page events the three managers and the
    browser are what the capture inputs among them produce on their own.
    Status, buttons, dialog, chat and transport never act on the
    capture state. *)
Theorem page_refines_capture (events : list PageEvent) (pg : Page) :
  world (page_run events pg) = run (omap capture_input events) (world pg).
Proof.
  revert pg. induction events as [|ev events IH]; intros pg; [done|].
  unfold page_run in *. cbn [foldl]. rewrite IH, world_page_step. cbn.
  by destruct (capture_input ev).
Qed.

Lemma status_page_step pg ev :
  status (page_step pg ev)
  = match status_of ev with Some s => setAppStatus s (status pg) | None => status pg end.
Proof.
  destruct pg as [w st mb mo dm dop tc tm ap].
  destruct ev as [i|rs si pr tok|m|[typed|type data]]; try done.
  - destruct i; try done; by destruct w as [b vm sm [[s|] cb]].
  - cbn. unfold Handlers.onReceiveResponse.
    by destruct (String.eqb type "AUDIO"), (String.eqb type "TEXT").
Qed.

(** After any page events the status display shows exactly the status
    of the last event that sets one: connecting after the connect
    button, connected once the connection has started, disconnected
    after the disconnect button or an error.  No event of the page asks
    for the speaking status. *)
Theorem status_follows_last_event (events : list PageEvent) (pg : Page) :
  shown (status (page_run events pg))
  = match list.last (omap status_of events) with
    | Some s => [s]
    | None => shown (status pg)
    end
  ∧ "speaking" ∉ omap status_of events.
Proof.
  split.
  - revert pg. induction events as [|ev events IH] using rev_ind; intros pg; [done|].
    unfold page_run in *. rewrite foldl_app, omap_app. cbn [foldl omap list_omap].
    rewrite status_page_step.
    destruct (status_of ev) as [s|] eqn:Es.
    + rewrite last_snoc, setAppStatus_shown.
      destruct ev as [[]| | |]; by inversion Es.
    + rewrite app_nil_r. apply IH.
  - induction events as [|ev events IH]; cbn [omap list_omap]; [apply not_elem_of_nil|].
    destruct (status_of ev) as [s|] eqn:Es; [|done].
    apply not_elem_of_cons. split; [|done].
    destruct ev as [[]| | |]; by inversion Es.
Qed.

Lemma buttons_page_step pg ev :
  (micBtn_hidden (page_step pg ev), micOffBtn_hidden (page_step pg ev))
  = match microphone_click ev with
    | Some off => (off, negb off)
    | None => (micBtn_hidden pg, micOffBtn_hidden pg)
    end.
Proof.
  destruct pg as [w st mb mo dm dop tc tm ap].
  destruct ev as [i|rs si pr tok|m|[typed|type data]]; try done.
  - destruct i; try done; by destruct w as [b vm sm [[s|] cb]].
  - cbn. unfold Handlers.onReceiveResponse.
    by destruct (String.eqb type "AUDIO"), (String.eqb type "TEXT").
Qed.

(** The two microphone buttons show the last click and nothing else:
    after a click exactly one of them is hidden, and no other event
    changes them; neither the outcome of the acquisition a click starts,
    nor the microphone started when the connection starts, nor the one
    stopped by the disconnect button. *)
Theorem microphone_buttons_follow_clicks (events : list PageEvent) (pg : Page) :
  let pg' := page_run events pg in
  (micBtn_hidden pg', micOffBtn_hidden pg')
  = match list.last (omap microphone_click events) with
    | Some off => (off, negb off)
    | None => (micBtn_hidden pg, micOffBtn_hidden pg)
    end.
Proof.
  revert pg. induction events as [|ev events IH] using rev_ind; intros pg; [done|].
  cbv zeta in *. unfold page_run in *. rewrite foldl_app, omap_app.
  cbn [foldl omap list_omap]. rewrite buttons_page_step.
  destruct (microphone_click ev) as [off|].
  - by rewrite last_snoc.
  - rewrite app_nil_r. apply IH.
Qed.

Lemma chat_page_step pg ev :
  textChat (page_step pg ev) = textChat pg ++ option_list (paragraph ev)
  ∧ api (page_step pg ev) = api pg ++ api_calls ev.
Proof.
  destruct pg as [w st mb mo dm dop tc tm ap].
  destruct ev as [i|rs si pr tok|m|[typed|type data]]; cbn -[step].
  - rewrite app_nil_r.
    destruct i; try (by rewrite app_nil_r);
      destruct w as [b vm sm [[s|] cb]]; cbn; by rewrite ?app_nil_r.
  - by rewrite <-!app_assoc, app_nil_r.
  - by rewrite !app_nil_r.
  - done.
  - unfold Handlers.onReceiveResponse.
    destruct (String.eqb_spec type "AUDIO") as [->|_]; [cbn; by rewrite app_nil_r|].
    destruct (String.eqb type "TEXT"); cbn; by rewrite ?app_nil_r.
Qed.

(** The chat window and the calls on the transport are append-only and
    follow the events in order: a sent message adds one paragraph
    [User: text] and one text message, a TEXT response adds one paragraph
    [>> data], an AUDIO response is played and adds no paragraph, a
    response of any other type does nothing, and the connect and
    disconnect buttons make their calls in program order. *)
Theorem chat_and_calls_follow_events (events : list PageEvent) (pg : Page) :
  let pg' := page_run events pg in
  textChat pg' = textChat pg ++ omap paragraph events
  ∧ api pg' = api pg ++ flat_map api_calls events.
Proof.
  revert pg. induction events as [|ev events IH]; intros pg; cbv zeta in *.
  - cbn. by rewrite !app_nil_r.
  - unfold page_run in *. cbn [foldl omap list_omap flat_map].
    destruct (IH (page_step pg ev)) as [-> ->].
    destruct (chat_page_step pg ev) as [-> ->].
    rewrite <-!app_assoc. by destruct (paragraph ev).
Qed.

(** [newUserMessage] sends what the input holds, empty or not, and
    clears it: sending again without typing adds the paragraph [User: ]
    and sends the empty text. *)
Theorem send_clears_the_input (pg : Page) :
  let once := exec Handlers.newUserMessage pg in
  let twice := exec Handlers.newUserMessage once in
  textMessage once = ""
  ∧ textChat once = textChat pg ++ ["User: " +:+ textMessage pg]
  ∧ api once = api pg ++ [SendTextMessage (textMessage pg)]
  ∧ textChat twice = textChat pg ++ ["User: " +:+ textMessage pg; "User: "]
  ∧ api twice = api pg ++ [SendTextMessage (textMessage pg); SendTextMessage ""].
Proof.
  destruct pg as [w st mb mo dm dop tc tm ap]. cbn.
  rewrite <-!app_assoc. done.
Qed.

(** ** Reconnecting *)

(** The connection-started handler starts a microphone without stopping
    the one held.  After an error, which stops nothing, a reconnect adds
    a second microphone stream next to the first, which keeps its tracks
    and loses its handle; after the disconnect button, which stops the
    microphone, the reconnect finds the old stream ended. *)
Theorem reconnect_after_error_keeps_old_microphone (pg : Page) (message : string) (n : nat) :
  let held := LiveAudioInputManager.stream (liveAudioInputManager (world pg)) in
  let ss := streams (browser (world pg)) in
  let p := length (promises (browser (world pg))) in
  let reconnect first :=
    page_run [first; OnInput ConnectionStarted; OnInput (PromiseSettles p (Granted n))] pg in
  let after_error := reconnect (OnErrorMessage message) in
  let after_disconnect := reconnect (OnInput DisconnectBtnClick) in
  (streams (browser (world after_error)) = ss ++ [mkStream Microphone (replicate n Live)]
   ∧ LiveAudioInputManager.stream (liveAudioInputManager (world after_error))
     = Some (length ss))
  ∧ (streams (browser (world after_disconnect))
     = ended_handle held ss ++ [mkStream Microphone (replicate n Live)]
     ∧ LiveAudioInputManager.stream (liveAudioInputManager (world after_disconnect))
       = Some (length ss)).
Proof.
  intros held ss p reconnect after_error after_disconnect.
  subst after_error after_disconnect reconnect. unfold page_run. cbn [foldl].
  rewrite !world_page_step. cbn [capture_input]. subst held ss p.
  destruct (world pg) as [[ss ps v c fq g lg] vm sm [[s|] cb]];
    cbn [browser promises streams liveAudioInputManager LiveAudioInputManager.stream];
    rewrite !step_settle; unfold step; settle_last;
    rewrite !resume_connectMicrophone_fulfilled; cbn; by rewrite ?length_alter.
Qed.

(** ** Disconnecting *)

(** The disconnect button stops the microphone only: the camera and
    screen managers, the display binding and the registered sampling
    loops are untouched, and the next tick samples and delivers exactly
    the frames it would have without the disconnect. *)
Theorem disconnect_keeps_video_sampling (pg : Page) (report : N * N * Picture) :
  let left := world (exec Handlers.disconnectBtnClick pg) in
  LiveAudioInputManager.stream (liveAudioInputManager left) = None
  ∧ liveVideoManager left = liveVideoManager (world pg)
  ∧ liveScreenManager left = liveScreenManager (world pg)
  ∧ srcObject (video (browser left)) = srcObject (video (browser (world pg)))
  ∧ ∃ sampled,
      log (browser (tick report (world pg))) = log (browser (world pg)) ++ sampled
      ∧ log (browser (tick report left)) = log (browser left) ++ sampled
      ∧ frameRequests (browser (tick report left))
        = frameRequests (browser (tick report (world pg))).
Proof.
  destruct pg as [[[ss ps v c fq g lg] vm sm [[s|] cb]] st mb mo dm dop tc tm ap];
    cbn [world exec snd]; repeat split; try done;
    rewrite !tick_eq; eexists; repeat split.
Qed.

(** ** Audio events without a receiver *)

(** While no receiver is assigned, audio events change nothing at all
    and complete normally, whichever graph fires and whatever the buffer
    holds: the handler checks the receiver before it touches the
    buffer. *)
Theorem audio_without_receiver_is_dropped (w : World) (events : list (nat * AudioBuffer)) :
  LiveAudioInputManager.onNewAudioRecordingChunk (liveAudioInputManager w) = None →
  run ((λ e, AudioProcess e.1 e.2) <$> events) w = w
  ∧ Forall (λ e, result (audio_process e.1 e.2) w = Normal ()) events.
Proof.
  intros Hcb.
  assert (∀ g buf, audio_process g buf w = (Normal (), w)) as H.
  { intros g buf. unfold audio_process.
    destruct (_ !! _) as [graph|]; [|done]. destruct (onaudioprocess graph); [|done].
    destruct w as [b vm sm [s cb]]. cbn in Hcb. by subst cb. }
  split.
  - induction events as [|[g buf] events IH]; [done|].
    cbn [fmap list_fmap]. rewrite run_cons. unfold step at 1. unfold exec.
    by rewrite H.
  - apply list.Forall_forall. intros [g buf] _. unfold result. by rewrite H.
Qed.

Lemma audio_without_receiver_is_dropped_witness :
  run ((λ e, AudioProcess e.1 e.2) <$> [(0, [[1%N; 2%N]]); (0, [])])
      (run [ConnectMicrophone None; PromiseSettles 0 (Granted 1)] constructed)
  = run [ConnectMicrophone None; PromiseSettles 0 (Granted 1)] constructed
  ∧ Forall (λ e, result (audio_process e.1 e.2)
                   (run [ConnectMicrophone None; PromiseSettles 0 (Granted 1)] constructed)
                 = Normal ())
           [(0, [[1%N; 2%N]]); (0, [])].
Proof.
  apply (audio_without_receiver_is_dropped
           (run [ConnectMicrophone None; PromiseSettles 0 (Granted 1)] constructed)
           [(0, [[1%N; 2%N]]); (0, [])]).
  reflexivity.
Defined.

(** * The cookie jar *)

Section CookieJarProperties.
Import CookieJar.
Variable encodeURIComponent : string → Completion string.
Variable decodeURIComponent : string → Completion string.
Variable cookie_match : string → string → option string.
Variable toUTCString : option Z → string.

Local Abbreviation setCookie := (CookieJar.setCookie encodeURIComponent toUTCString).
Local Abbreviation getCookie := (CookieJar.getCookie decodeURIComponent cookie_match).
Local Abbreviation init := (CookieJar.init decodeURIComponent cookie_match).
Local Abbreviation page_script := (CookieJar.page_script decodeURIComponent cookie_match).
Local Abbreviation input_listener := (CookieJar.input_listener encodeURIComponent toUTCString).
Local Abbreviation run_listeners := (CookieJar.run_listeners encodeURIComponent toUTCString).
Local Abbreviation input_event := (CookieJar.input_event encodeURIComponent toUTCString).
Local Abbreviation typing := (CookieJar.typing encodeURIComponent toUTCString).
Local Abbreviation saved_as := (CookieJar.saved_as encodeURIComponent toUTCString).

(** ** The guards *)

(** The guards: [setCookie] with an empty name or an empty value, and
    [getCookie] and [deleteCookie] with an empty name, assign nothing to
    [document.cookie], do not look at the cookie string or the coding
    functions, write one error to the console and return normally. *)
Theorem empty_name_or_value_writes_nothing (name v : string) (days : Z) (d : Document) :
  let complain e :=
    mkDocument (elements d) (cookie d) (assigned d) (console d ++ [e]) (clock d) in
  setCookie "" v days d = (Normal (), complain NameAndValueRequired)
  ∧ setCookie name "" days d = (Normal (), complain NameAndValueRequired)
  ∧ getCookie "" d = (Normal None, complain NameRequired)
  ∧ deleteCookie "" d = (Normal (), complain NameRequired).
Proof.
  intros complain. repeat split.
  unfold CookieJar.setCookie. by rewrite orb_true_r.
Qed.

Lemma listener_saves element l d e :
  elements d !! element = Some e →
  ∃ c cs,
    input_listener element l d
    = (c, mkDocument (elements d) (cookie d)
            (assigned d ++ option_list (saved_as (value e) (clock d) l))
            (console d ++ cs) (clock d)).
Proof.
  intros He. destruct d as [es ck asg con now]. cbn in He.
  unfold CookieJar.input_listener, CookieJar.setCookie, CookieJar.saved_as, bind,
    console_write, get_value, modify, gets, platform, assign_cookie.
  cbn. rewrite He. cbn.
  destruct (_ || _); cbn.
  - eexists _, [_; _]. by rewrite app_nil_r, <-app_assoc.
  - destruct (encodeURIComponent (value e)) as [enc|err]; cbn.
    + eexists _, [_; _]. by rewrite <-app_assoc.
    + eexists _, [_]. by rewrite app_nil_r.
Qed.

Lemma listeners_save element ls d e :
  elements d !! element = Some e →
  ∃ cs,
    (run_listeners element ls d).2
    = mkDocument (elements d) (cookie d)
        (assigned d ++ omap (saved_as (value e) (clock d)) ls)
        (console d ++ cs) (clock d).
Proof.
  revert d. induction ls as [|l ls IH]; intros d He.
  - exists []. destruct d. cbn. by rewrite !app_nil_r.
  - cbn [CookieJar.run_listeners].
    destruct (listener_saves element l d e He) as (c & cs & ->).
    match goal with |- context [run_listeners element ls ?d'] =>
      destruct (IH d' He) as (cs' & E);
      destruct (run_listeners element ls d') as [rs d''] end.
    cbn in E. subst d''. exists (cs ++ cs'). cbn.
    rewrite <-!app_assoc. by destruct (saved_as _ _ l).
Qed.

Lemma input_event_saves element v now d e :
  elements d !! element = Some e →
  ∃ cs,
    (input_event element v now d).2
    = mkDocument (<[element := mkInput (id e) v (input_listeners e)]> (elements d)) (cookie d)
        (assigned d ++ omap (saved_as v now) (input_listeners e))
        (console d ++ cs) now.
Proof.
  intros He. unfold CookieJar.input_event. cbn.
  rewrite list_lookup_alter_eq, He. cbn.
  edestruct (listeners_save element (input_listeners e)) as (cs & ->).
  { cbn. by rewrite list_lookup_alter_eq, He. }
  exists cs. cbn. f_equal.
  apply list_eq. intros j. destruct (decide (j = element)) as [->|Hne].
  - rewrite list_lookup_alter_eq, He. cbn. rewrite list_lookup_insert_eq; [done|].
    by eapply lookup_lt_Some.
  - by rewrite list_lookup_alter_ne, list_lookup_insert_ne.
Qed.


Lemma typing_saves element edits d e :
  elements d !! element = Some e →
  let d' := typing element edits d in
  assigned d' = assigned d
                ++ flat_map (λ edit, omap (saved_as edit.1 edit.2) (input_listeners e)) edits
  ∧ cookie d' = cookie d
  ∧ input_listeners <$> elements d' !! element = Some (input_listeners e).
Proof.
  revert d e. induction edits as [|[v now] edits IH]; intros d e He; cbv zeta.
  - cbn. by rewrite app_nil_r, He.
  - unfold CookieJar.typing. cbn [foldl flat_map fst snd].
    destruct (input_event_saves element v now d e He) as (cs & ->).
    match goal with |- context [foldl _ ?d' edits] =>
      destruct (IH d' (mkInput (id e) v (input_listeners e))) as (E1 & E2 & E3) end.
    { cbn. apply list_lookup_insert_eq. by eapply lookup_lt_Some. }
    unfold CookieJar.typing in E1, E2, E3. rewrite E1, E2, E3. cbn.
    by rewrite <-app_assoc.
Qed.

Lemma cookie_name_not_empty elementId : String.eqb ("CookieJar_" +:+ elementId) "" = false.
Proof. done. Qed.

Lemma init_eq elementId d i e :
  list_find (λ e, id e = elementId) (elements d) = Some (i, e) →
  let listen v :=
    mkInput (id e) v
            (input_listeners e ++ [mkListener elementId ("CookieJar_" +:+ elementId)]) in
  init elementId d
  = match cookie_match (cookie d) ("CookieJar_" +:+ elementId) with
    | None =>
        (Normal (), mkDocument (<[i := listen (value e)]> (elements d)) (cookie d)
                      (assigned d) (console d) (clock d))
    | Some cookieValue =>
        match decodeURIComponent cookieValue with
        | Throw error => (Throw error, d)
        | Normal savedValue =>
            if String.eqb savedValue "" then
              (Normal (), mkDocument (<[i := listen (value e)]> (elements d)) (cookie d)
                            (assigned d) (console d) (clock d))
            else
              (Normal (), mkDocument (<[i := listen savedValue]> (elements d)) (cookie d)
                            (assigned d) (console d ++ [FoundCookie elementId savedValue])
                            (clock d))
        end
    end.
Proof.
  intros Hf listen. pose proof Hf as Hf'.
  apply list_find_Some in Hf' as (He & _ & _).
  assert (Hi : i < length (elements d)) by (by eapply lookup_lt_Some).
  destruct d as [es ck asg con now]. cbn -[String.append] in *.
  unfold CookieJar.init, bind, getElementById, gets. cbn -[String.append]. rewrite Hf. cbn.
  unfold CookieJar.getCookie. rewrite cookie_name_not_empty.
  unfold bind, gets, platform. cbn -[String.append].
  assert (∀ v, alter (λ e0, mkInput (id e0) (value e0)
                              (input_listeners e0 ++ [mkListener elementId ("CookieJar_" +:+ elementId)]))
                 i (alter (λ e0, mkInput (id e0) v (input_listeners e0)) i es)
               = <[i := listen v]> es) as Hset.
  { intros v. apply list_eq. intros j. destruct (decide (j = i)) as [->|Hne].
    - rewrite !list_lookup_alter_eq, He. cbn -[String.append]. by rewrite list_lookup_insert_eq.
    - by rewrite !list_lookup_alter_ne, list_lookup_insert_ne. }
  assert (alter (λ e0, mkInput (id e0) (value e0)
                         (input_listeners e0 ++ [mkListener elementId ("CookieJar_" +:+ elementId)]))
                i es
          = <[i := listen (value e)]> es) as Hadd.
  { apply list_eq. intros j. destruct (decide (j = i)) as [->|Hne].
    - rewrite !list_lookup_alter_eq, He. cbn -[String.append]. by rewrite list_lookup_insert_eq.
    - by rewrite !list_lookup_alter_ne, list_lookup_insert_ne. }
  unfold addEventListener, set_value, set_elements, console_write, modify, ret.
  destruct (cookie_match ck _) as [raw|]; cbn -[String.append].
  - destruct (decodeURIComponent raw) as [v|err]; cbn -[String.append]; [|done].
    destruct (String.eqb v ""); cbn -[String.append].
    + by rewrite Hadd.
    + by rewrite Hset.
  - by rewrite Hadd.
Qed.

(** ** What is saved *)


(** ** A saved cookie that does not decode *)

(** When the saved cookie of an element does not decode, [init] throws
    the decoding error before it has attached the listener and leaves the
    document as it was: the field is neither loaded nor saved from then
    on.  Whatever follows the call in the script does not run: for the
    token field, the first of the three calls of the page script, the
    other two fields are not initialised either. *)
Theorem malformed_cookie_aborts_init (elementId : string) (d : Document) (i : nat)
    (e : InputElement) (cookieValue : string) (error : JsError) :
  list_find (λ e, id e = elementId) (elements d) = Some (i, e) →
  cookie_match (cookie d) ("CookieJar_" +:+ elementId) = Some cookieValue →
  decodeURIComponent cookieValue = Throw error →
  init elementId d = (Throw error, d)
  ∧ ∀ rest : M Document unit, (init elementId ;; rest) d = (Throw error, d).
Proof.
  intros Hf Hm Hd.
  assert (init elementId d = (Throw error, d)) as H.
  { rewrite (init_eq elementId d i e Hf), Hm, Hd. done. }
  split; [done|]. intros rest. unfold bind. by rewrite H.
Qed.

End CookieJarProperties.


Lemma malformed_cookie_aborts_init_witness :
  let decode (v : string) : Completion string := Throw (TypeError "URIError") in
  let d := CookieJar.mkDocument [CookieJar.mkInput "token" "" []] "CookieJar_token=%" [] [] 0 in
  CookieJar.page_script decode (λ _ _, Some "%") d = (Throw (TypeError "URIError"), d).
Proof.
  pose proof (malformed_cookie_aborts_init
    (λ _, Throw (TypeError "URIError")) (λ _ _, Some "%") "token"
    (CookieJar.mkDocument [CookieJar.mkInput "token" "" []] "CookieJar_token=%" [] [] 0)
    0 (CookieJar.mkInput "token" "" []) "%" (TypeError "URIError")
    eq_refl eq_refl eq_refl) as [_ H].
  exact (H _).
Defined.
